(** * fumadocs-graphql: schema walker and document renderer

    A shallow embedding of the GraphQL documentation generator
    ([generateAll], [generateOperations], [generateTypes],
    [getOperationType]) and of the title formatter exercised by the
    OpenAPI test-suite, followed by the properties of the design
    document that the code decides. *)

From Stdlib Require Import List Arith NArith Bool Ascii String Lia.
Import ListNotations.

Set Implicit Arguments.
Open Scope list_scope.

(** ** JavaScript strings

    A JavaScript string is a sequence of UTF-16 code units.  Literals of
    the source are written [lit "..."]; the line feed of a template
    literal is [nl]. *)

Module JS.

Definition jsstring : Type := list N.

Definition lit (s : string) : jsstring :=
  map N_of_ascii (list_ascii_of_string s).

Definition nl : N := 10%N.

(** [WhiteSpace] and [LineTerminator] of ECMA-262, the code units that
    [String.prototype.trim] strips. *)
Definition isWhiteSpace (c : N) : bool :=
  ((9 <=? c) && (c <=? 13) || (c =? 32) || (c =? 160) || (c =? 5760)
   || (8192 <=? c) && (c <=? 8202) || (c =? 8232) || (c =? 8233)
   || (c =? 8239) || (c =? 8287) || (c =? 12288) || (c =? 65279))%N.

Fixpoint trimStart (s : jsstring) : jsstring :=
  match s with
  | [] => []
  | c :: s' => if isWhiteSpace c then trimStart s' else s
  end.

Fixpoint trimEnd (s : jsstring) : jsstring :=
  match s with
  | [] => []
  | c :: s' =>
      match trimEnd s' with
      | [] => if isWhiteSpace c then [] else [c]
      | t => c :: t
      end
  end.

Definition trim (s : jsstring) : jsstring := trimEnd (trimStart s).

(** [Array.prototype.join]. *)
Fixpoint join (sep : jsstring) (l : list jsstring) : jsstring :=
  match l with
  | [] => []
  | [x] => x
  | x :: rest => x ++ sep ++ join sep rest
  end.

Fixpoint eqs (a b : jsstring) : bool :=
  match a, b with
  | [], [] => true
  | x :: a', y :: b' => (x =? y)%N && eqs a' b'
  | _, _ => false
  end.

(** [String.prototype.startsWith]. *)
Fixpoint startsWith (s p : jsstring) {struct p} : bool :=
  match p, s with
  | [], _ => true
  | x :: p', y :: s' => (x =? y)%N && startsWith s' p'
  | _ :: _, [] => false
  end.

(** [String.prototype.includes]. *)
Fixpoint includes (s p : jsstring) : bool :=
  startsWith s p ||
  match s with
  | [] => false
  | _ :: s' => includes s' p
  end.

(** [String.prototype.split('\n')]. *)
Fixpoint lines (s : jsstring) : list jsstring :=
  match s with
  | [] => [[]]
  | c :: s' =>
      if (c =? nl)%N then [] :: lines s'
      else match lines s' with
           | l :: ls => (c :: l) :: ls
           | [] => [[c]]
           end
  end.

(** The nullish coalescing operator [a ?? b]. *)
Definition nullish {A : Type} (a : option A) (b : A) : A :=
  match a with
  | Some x => x
  | None => b
  end.

End JS.

Import JS.

(** ** The schema graph

    What [loadSchema] hands to the generator: graphql-js objects.  A
    GraphQL name is a [Name] token of the SDL lexer,
    [[_A-Za-z][_0-9A-Za-z]*]; the maps returned by [getFields] and
    [getTypeMap] are JavaScript objects keyed by such names, so a key
    occurs once and [Object.entries] lists the entries in insertion
    order. *)

Module GraphQL.

Definition isNameStart (c : N) : bool :=
  ((c =? 95) || (65 <=? c) && (c <=? 90) || (97 <=? c) && (c <=? 122))%N.

Definition isNameContinue (c : N) : bool :=
  isNameStart c || ((48 <=? c) && (c <=? 57))%N.

Definition isName (s : jsstring) : bool :=
  match s with
  | [] => false
  | c :: rest => isNameStart c && forallb isNameContinue rest
  end.

Record Name : Type := mkName {
  text :> jsstring;
  text_ok : isName text = true
}.

Fixpoint mem (x : jsstring) (l : list jsstring) : bool :=
  match l with
  | [] => false
  | y :: l' => eqs x y || mem x l'
  end.

Fixpoint distinct (l : list jsstring) : bool :=
  match l with
  | [] => true
  | x :: l' => negb (mem x l') && distinct l'
  end.

(** A JavaScript object used as a map from names to [V]. *)
Record ObjMap (V : Type) : Type := mkObjMap {
  entries : list (Name * V);
  keys_distinct : distinct (map (fun e => text (fst e)) entries) = true
}.

(** A type reference of graphql-js (a named type, [GraphQLList],
    [GraphQLNonNull]) with the [toString] of that library: [T], [[T]]
    and [T!]. *)
Inductive GraphQLType : Type :=
  | NamedType (n : Name)
  | ListType (ofType : GraphQLType)
  | NonNullType (ofType : GraphQLType).

Fixpoint toString (t : GraphQLType) : jsstring :=
  match t with
  | NamedType n => text n
  | ListType t' => lit "[" ++ toString t' ++ lit "]"
  | NonNullType t' => toString t' ++ lit "!"
  end.

Record GraphQLArgument : Type := mkArgument {
  arg_name : Name;
  arg_type : GraphQLType
}.

Record GraphQLField : Type := mkField {
  field_description : option jsstring;
  field_args : list GraphQLArgument;
  field_type : GraphQLType
}.

(** [ref] is the identity of the object: [a === b] on object types is
    [ref a = ref b]. *)
Record GraphQLObjectType : Type := mkObjectType {
  ref : N;
  type_name : Name;
  type_description : option jsstring;
  getFields : ObjMap GraphQLField
}.

Inductive GraphQLNamedType : Type :=
  | ObjectType (o : GraphQLObjectType)
  | ScalarType
  | InterfaceType
  | UnionType
  | EnumType
  | InputObjectType.

Record GraphQLSchema : Type := mkSchema {
  getQueryType : option GraphQLObjectType;
  getMutationType : option GraphQLObjectType;
  getSubscriptionType : option GraphQLObjectType;
  getTypeMap : ObjMap GraphQLNamedType
}.

(** [t === r] for an object [t] and a possibly absent root [r]. *)
Definition same (t : GraphQLObjectType) (r : option GraphQLObjectType) : bool :=
  match r with
  | Some r' => (ref t =? ref r')%N
  | None => false
  end.

End GraphQL.

Import GraphQL.

(** ** The generator *)

Record OperationDoc : Type := mkOperationDoc {
  op_name : jsstring;
  op_type : jsstring;
  op_content : jsstring
}.

Record TypeDoc : Type := mkTypeDoc {
  ty_name : jsstring;
  ty_content : jsstring
}.

Definition getOperationType (schema : GraphQLSchema)
    (fieldType : GraphQLObjectType) : jsstring :=
  if same fieldType (getQueryType schema) then lit "query"
  else if same fieldType (getMutationType schema) then lit "mutation"
  else if same fieldType (getSubscriptionType schema) then lit "subscription"
  else lit "type".

(** [`${arg.name}: ${arg.type.toString()}`] *)
Definition argSignature (arg : GraphQLArgument) : jsstring :=
  text (arg_name arg) ++ lit ": " ++ toString (arg_type arg).

(** The template literal of [processFields], trimmed. *)
Definition operationContent (fieldName : jsstring) (field : GraphQLField)
    : jsstring :=
  let args := map argSignature (field_args field) in
  trim
    ([nl] ++ lit "---" ++ [nl]
     ++ lit "title: " ++ fieldName ++ [nl]
     ++ lit "description: "
     ++ nullish (field_description field) (lit "Description for " ++ fieldName)
     ++ [nl]
     ++ lit "---" ++ [nl]
     ++ [nl]
     ++ lit "# " ++ fieldName ++ [nl]
     ++ [nl]
     ++ [nl]
     ++ nullish (field_description field) [] ++ [nl]
     ++ [nl]
     ++ (if (0 <? List.length args)%nat
         then lit "## Arguments" ++ [nl; nl]
              ++ join [nl] (map (fun arg => lit "- " ++ arg) args)
         else [])
     ++ [nl]
     ++ lit "      ").

Definition processFields (schema : GraphQLSchema)
    (type : option GraphQLObjectType) (operations : list OperationDoc)
    : list OperationDoc :=
  match type with
  | None => operations
  | Some t =>
      fold_left
        (fun ops (e : Name * GraphQLField) =>
           let (fieldName, field) := e in
           ops ++ [ {| op_name := text fieldName;
                       op_type := getOperationType schema t;
                       op_content := operationContent (text fieldName) field |} ])
        (entries (getFields t)) operations
  end.

Definition generateOperations (schema : GraphQLSchema) : list OperationDoc :=
  let operations := [] in
  let queryType := getQueryType schema in
  let mutationType := getMutationType schema in
  let subscriptionType := getSubscriptionType schema in
  let operations := processFields schema queryType operations in
  let operations := processFields schema mutationType operations in
  let operations := processFields schema subscriptionType operations in
  operations.

(** [`- ${fieldName}: ${field.type.toString()}`] *)
Definition fieldDefinition (e : Name * GraphQLField) : jsstring :=
  lit "- " ++ text (fst e) ++ lit ": " ++ toString (field_type (snd e)).

(** The template literal of [generateTypes], trimmed. *)
Definition typeContent (typeName : jsstring) (type : GraphQLObjectType)
    : jsstring :=
  let fieldDefinitions := map fieldDefinition (entries (getFields type)) in
  trim
    ([nl] ++ lit "---" ++ [nl]
     ++ lit "title: " ++ typeName ++ [nl]
     ++ lit "description: Type definition for " ++ typeName ++ [nl]
     ++ lit "---" ++ [nl]
     ++ [nl]
     ++ lit "  # " ++ typeName ++ [nl]
     ++ [nl]
     ++ lit "  " ++ nullish (type_description type) [] ++ [nl]
     ++ [nl]
     ++ lit "  "
     ++ (if (0 <? List.length fieldDefinitions)%nat
         then lit "## Fields" ++ [nl; nl] ++ join [nl] fieldDefinitions
         else [])
     ++ [nl]
     ++ [nl]
     ++ lit " ").

(** The guard of the loop of [generateTypes]; the [instanceof] test is
    the match on [ObjectType]. *)
Definition documentedType (schema : GraphQLSchema) (typeName : jsstring)
    (type : GraphQLNamedType) : option GraphQLObjectType :=
  match type with
  | ObjectType o =>
      if negb (startsWith typeName (lit "__"))
         && negb (same o (getQueryType schema))
         && negb (same o (getMutationType schema))
         && negb (same o (getSubscriptionType schema))
      then Some o
      else None
  | _ => None
  end.

Definition generateTypes (schema : GraphQLSchema) : list TypeDoc :=
  fold_left
    (fun types (e : Name * GraphQLNamedType) =>
       let (typeName, type) := e in
       match documentedType schema (text typeName) type with
       | Some o =>
           types ++ [ {| ty_name := text typeName;
                         ty_content := typeContent (text typeName) o |} ]
       | None => types
       end)
    (entries (getTypeMap schema)) [].

(** The path below [output] that [generateAll] gives to a document. *)
Definition operationPath (operation : OperationDoc) : jsstring :=
  op_type operation ++ lit "/" ++ op_name operation ++ lit ".mdx".

Definition typePath (type : TypeDoc) : jsstring :=
  lit "types/" ++ ty_name type ++ lit ".mdx".

(** ** The run of [generateAll]

    [generateAll] is an async function: a computation over the outside
    world that either fulfils or rejects, and every [await] of a rejected
    promise rejects the whole run.  The collaborators ([loadSchema] of
    graphql-tools, [mkdir] and [writeFile] of node:fs/promises, [join]
    and [dirname] of node:path) are left abstract.  A run records, in
    order, each call to a collaborator and each binding of the two
    in-memory arrays. *)

Inductive event : Type :=
  | EvLoadSchema (input : jsstring)
  | EvOperations (operations : list OperationDoc)
  | EvTypes (types : list TypeDoc)
  | EvMkdir (dir : jsstring)
  | EvWriteFile (path content : jsstring).

Definition isFsEvent (e : event) : bool :=
  match e with
  | EvMkdir _ | EvWriteFile _ _ => true
  | _ => false
  end.

(** The calls to [writeFile] of a run, in order: path and content. *)
Fixpoint writeCalls (trace : list event) : list (jsstring * jsstring) :=
  match trace with
  | [] => []
  | EvWriteFile path content :: rest => (path, content) :: writeCalls rest
  | _ :: rest => writeCalls rest
  end.

Section Run.

Variable World : Type.
Variable Error : Type.

Variable loadSchema_ : jsstring -> World -> World * (Error + GraphQLSchema).
Variable mkdir_ : jsstring -> World -> World * (Error + unit).
Variable writeFile_ : jsstring -> jsstring -> World -> World * (Error + unit).
Variable path_join : jsstring -> jsstring -> jsstring.
Variable dirname : jsstring -> jsstring.

Definition Promise (A : Type) : Type :=
  World -> list event * World * (Error + A).

Definition resolve {A : Type} (a : A) : Promise A :=
  fun w => ([], w, inr a).

(** [const x = await p; k x] *)
Definition await {A B : Type} (p : Promise A) (k : A -> Promise B)
    : Promise B :=
  fun w =>
    match p w with
    | (t1, w1, inl e) => (t1, w1, inl e)
    | (t1, w1, inr a) =>
        match k a w1 with
        | (t2, w2, r) => (t1 ++ t2, w2, r)
        end
    end.

Definition called {A : Type} (e : event) (f : World -> World * (Error + A))
    : Promise A :=
  fun w => let (w', r) := f w in ([e], w', r).

Definition bound {A : Type} (mk : A -> event) (a : A) : Promise A :=
  fun w => ([mk a], w, inr a).

Definition loadSchema (input : jsstring) : Promise GraphQLSchema :=
  called (EvLoadSchema input) (loadSchema_ input).

Definition mkdir (dir : jsstring) : Promise unit :=
  called (EvMkdir dir) (mkdir_ dir).

Definition writeFile (path content : jsstring) : Promise unit :=
  called (EvWriteFile path content) (writeFile_ path content).

Definition write (path content : jsstring) : Promise unit :=
  await (mkdir (dirname path)) (fun _ => writeFile path content).

(** [for (const x of l) { await body(x) }] *)
Fixpoint forOf {A : Type} (l : list A) (body : A -> Promise unit)
    : Promise unit :=
  match l with
  | [] => resolve tt
  | x :: l' => await (body x) (fun _ => forOf l' body)
  end.

Definition generateAll (input output : jsstring) : Promise unit :=
  await (loadSchema input) (fun schema =>
  await (bound EvOperations (generateOperations schema)) (fun operations =>
  await (bound EvTypes (generateTypes schema)) (fun types =>
  await (forOf operations (fun operation =>
           let path := path_join output (operationPath operation) in
           write path (op_content operation))) (fun _ =>
  forOf types (fun type =>
    let path := path_join output (typePath type) in
    write path (ty_content type)))))).

End Run.

(** ** The title formatter

    [idToTitle] lives in the OpenAPI package ([@/utils/id-to-title]);
    only its test is part of the sources at hand. *)

Module Title.

(** Modelled from the spec: the letters and digits of an identifier
    (ASCII), the hyphen, and the capital of a letter. *)
Definition isUpper (c : N) : bool := ((65 <=? c) && (c <=? 90))%N.
Definition isLower (c : N) : bool := ((97 <=? c) && (c <=? 122))%N.
Definition isDigit (c : N) : bool := ((48 <=? c) && (c <=? 57))%N.
Definition hyphen : N := 45%N.

Definition toUpper (c : N) : N := if isLower c then (c - 32)%N else c.

(** Modelled from the spec: step 1 of the Title Formatter, a boundary
    lies before an uppercase letter that follows a lowercase letter or a
    digit. *)
Definition boundaryBefore (prev : option N) (c : N) : bool :=
  match prev with
  | Some p => isUpper c && (isLower p || isDigit p)
  | None => false
  end.

Definition consHead (c : N) (segs : list jsstring) : list jsstring :=
  match segs with
  | seg :: rest => (c :: seg) :: rest
  | [] => [[c]]
  end.

(** Modelled from the spec: steps 1 and 3, the segments between the
    boundaries; a hyphen is a boundary and belongs to no segment. *)
Fixpoint segments (prev : option N) (s : jsstring) : list jsstring :=
  match s with
  | [] => [[]]
  | c :: s' =>
      if (c =? hyphen)%N then [] :: segments None s'
      else if boundaryBefore prev c then [] :: consHead c (segments (Some c) s')
      else consHead c (segments (Some c) s')
  end.

(** Modelled from the spec: step 4, the first letter of a segment is
    capitalised and the rest is left as it is. *)
Definition capitalize (seg : jsstring) : jsstring :=
  match seg with
  | [] => []
  | c :: rest => toUpper c :: rest
  end.

(** Modelled from the spec: the body of [idToTitle], which is not among
    the sources.  It follows the Title Formatter's algorithm: a boundary
    before each uppercase letter that follows a lowercase letter or a
    digit, hyphens as explicit boundaries, the first letter of each
    segment capitalised, segments joined by one space.  On a digit that
    follows a letter the design document speaks twice and differently;
    the model follows the values of its testable properties, which are
    those the test-suite expects. *)
Definition idToTitle (id : jsstring) : jsstring :=
  join (lit " ") (map capitalize (segments None id)).

(** The test 'Operation ID to Title' of the test-suite, run against an
    implementation [f] of the formatter. *)
Definition test_Operation_ID_to_Title (f : jsstring -> jsstring) : bool :=
  eqs (f (lit "getKey")) (lit "Get Key")
  && eqs (f (lit "requestId30")) (lit "Request Id30")
  && eqs (f (lit "requestId-30")) (lit "Request Id 30").

End Title.

(** ** Vocabulary of the properties *)

(** A string that survives [trimEnd] whole: non-empty, last code unit
    not white space. *)
Definition firm (s : jsstring) : Prop := s <> [] /\ trimEnd s = s.

(** The fields of a root operation type; none when the root is absent. *)
Definition rootFields (root : option GraphQLObjectType)
    : list (Name * GraphQLField) :=
  match root with
  | Some t => entries (getFields t)
  | None => []
  end.

(** The entries of the type map that pass the guard of [generateTypes]. *)
Definition documentedTypes (schema : GraphQLSchema)
    : list (Name * GraphQLObjectType) :=
  flat_map
    (fun e : Name * GraphQLNamedType =>
       match documentedType schema (text (fst e)) (snd e) with
       | Some o => [(fst e, o)]
       | None => []
       end)
    (entries (getTypeMap schema)).

(** [a === b] on two possibly absent roots, both present. *)
Definition sameRoot (a b : option GraphQLObjectType) : bool :=
  match a with
  | Some t => same t b
  | None => false
  end.

(** The root operation types that are present are pairwise different
    objects. *)
Definition distinctRoots (schema : GraphQLSchema) : bool :=
  negb (sameRoot (getQueryType schema) (getMutationType schema))
  && negb (sameRoot (getQueryType schema) (getSubscriptionType schema))
  && negb (sameRoot (getMutationType schema) (getSubscriptionType schema)).

(** A Document of the design: output path below the output root, and
    content. *)
Definition Document : Type := (jsstring * jsstring)%type.

Definition documents (schema : GraphQLSchema) : list Document :=
  map (fun operation => (operationPath operation, op_content operation))
    (generateOperations schema)
  ++ map (fun type => (typePath type, ty_content type))
       (generateTypes schema).

Definition operationDocument (kind : jsstring) (e : Name * GraphQLField)
    : Document :=
  (kind ++ lit "/" ++ text (fst e) ++ lit ".mdx",
   operationContent (text (fst e)) (snd e)).

Definition typeDocument (e : Name * GraphQLObjectType) : Document :=
  (lit "types/" ++ text (fst e) ++ lit ".mdx",
   typeContent (text (fst e)) (snd e)).

(** The front-matter block: [title] and [description] between two
    [---] lines. *)
Definition frontMatter (title description : jsstring) : jsstring :=
  lit "---" ++ [nl]
  ++ lit "title: " ++ title ++ [nl]
  ++ lit "description: " ++ description ++ [nl]
  ++ lit "---" ++ [nl].

(** A level-1 ATX heading line of Markdown, indented by [indent]
    spaces (at most three, or the line is no heading). *)
Definition headingLine (indent : nat) (name : jsstring) : jsstring :=
  repeat 32%N indent ++ lit "# " ++ name.

(** [p] occurs in [s]: what [s.includes(p)] decides. *)
Definition occurs (p s : jsstring) : Prop := exists x y, s = x ++ p ++ y.

(** The document that [processFields] pushes for the entry [e] of the
    fields of [t]. *)
Definition operationOf (schema : GraphQLSchema) (t : GraphQLObjectType)
    (e : Name * GraphQLField) : OperationDoc :=
  {| op_name := text (fst e);
     op_type := getOperationType schema t;
     op_content := operationContent (text (fst e)) (snd e) |}.

Definition operationsOf (schema : GraphQLSchema)
    (root : option GraphQLObjectType) : list OperationDoc :=
  match root with
  | Some t => map (operationOf schema t) (entries (getFields t))
  | None => []
  end.

(** The document that [generateTypes] pushes for a documented entry of
    the type map. *)
Definition typeOf (e : Name * GraphQLObjectType) : TypeDoc :=
  {| ty_name := text (fst e);
     ty_content := typeContent (text (fst e)) (snd e) |}.

(** The [description] of the front-matter of an operation document. *)
Definition operationDescription (fieldName : jsstring) (field : GraphQLField)
    : jsstring :=
  nullish (field_description field) (lit "Description for " ++ fieldName).

(** The two sections: heading, blank line, one entry per line. *)
Definition argumentsSection (field : GraphQLField) : jsstring :=
  lit "## Arguments" ++ [nl; nl]
  ++ join [nl]
       (map (fun arg => lit "- " ++ text (arg_name arg) ++ lit ": "
                        ++ toString (arg_type arg))
          (field_args field)).

Definition fieldsSection (type : GraphQLObjectType) : jsstring :=
  lit "## Fields" ++ [nl; nl]
  ++ join [nl]
       (map (fun e : Name * GraphQLField =>
               lit "- " ++ text (fst e) ++ lit ": "
               ++ toString (field_type (snd e)))
          (entries (getFields type))).

(** What an operation document starts with, and what is trimmed behind
    it. *)
Definition operationHead (fieldName : jsstring) (field : GraphQLField)
    : jsstring :=
  frontMatter fieldName (operationDescription fieldName field)
  ++ [nl] ++ lit "# " ++ fieldName.

Definition operationTail (field : GraphQLField) : jsstring :=
  [nl; nl; nl] ++ nullish (field_description field) [] ++ [nl; nl]
  ++ match field_args field with
     | [] => []
     | _ :: _ => argumentsSection field
     end
  ++ [nl] ++ lit "      ".

Definition typeHead (typeName : jsstring) : jsstring :=
  frontMatter typeName (lit "Type definition for " ++ typeName)
  ++ [nl] ++ lit "  # " ++ typeName.

Definition typeTail (type : GraphQLObjectType) : jsstring :=
  [nl; nl] ++ lit "  " ++ nullish (type_description type) [] ++ [nl; nl]
  ++ lit "  "
  ++ match entries (getFields type) with
     | [] => []
     | _ :: _ => fieldsSection type
     end
  ++ [nl; nl] ++ lit " ".

(** The documents in the order of the design: the fields of the query
    root, of the mutation root and of the subscription root, each in
    declared order, then the documented types in the order of the type
    map. *)
Definition rootDocuments (schema : GraphQLSchema)
    (root : option GraphQLObjectType) : list Document :=
  match root with
  | Some t =>
      map (operationDocument (getOperationType schema t))
        (entries (getFields t))
  | None => []
  end.

Definition inOrder (schema : GraphQLSchema) : list Document :=
  rootDocuments schema (getQueryType schema)
  ++ rootDocuments schema (getMutationType schema)
  ++ rootDocuments schema (getSubscriptionType schema)
  ++ map typeDocument (documentedTypes schema).

(** The components of the outcome of a run. *)
Definition traceOf {W R : Type} (outcome : list event * W * R) : list event :=
  fst (fst outcome).

Definition resultOf {W R : Type} (outcome : list event * W * R) : R :=
  snd outcome.

(** ** Members

    A Member of the design: a field of a root operation type, or an
    object type of the type map, with what the renderer makes of it. *)

Inductive Member : Type :=
  | OperationMember (fieldName : Name) (field : GraphQLField)
  | TypeMember (typeName : Name) (type : GraphQLObjectType).

Definition render (m : Member) : jsstring :=
  match m with
  | OperationMember fieldName field => operationContent (text fieldName) field
  | TypeMember typeName type => typeContent (text typeName) type
  end.

Definition memberDescription (m : Member) : option jsstring :=
  match m with
  | OperationMember _ field => field_description field
  | TypeMember _ type => type_description type
  end.

Definition sectionHeading (m : Member) : jsstring :=
  match m with
  | OperationMember _ _ => lit "## Arguments"
  | TypeMember _ _ => lit "## Fields"
  end.

(** The entries [- <name>: <typeSignature>] of the arguments of an
    operation, or of the fields of a type, in declared order. *)
Definition listing (m : Member) : list jsstring :=
  match m with
  | OperationMember _ field =>
      map (fun arg => lit "- " ++ text (arg_name arg) ++ lit ": "
                      ++ toString (arg_type arg))
        (field_args field)
  | TypeMember _ type =>
      map (fun e : Name * GraphQLField =>
             lit "- " ++ text (fst e) ++ lit ": "
             ++ toString (field_type (snd e)))
        (entries (getFields type))
  end.

(** The directory of a path: what precedes its first [/]. *)
Fixpoint directory (path : jsstring) : jsstring :=
  match path with
  | [] => []
  | c :: rest => if (c =? 47)%N then [] else c :: directory rest
  end.

(** [t] is one of the root operation types of the schema. *)
Definition isRoot (schema : GraphQLSchema) (t : GraphQLObjectType) : bool :=
  same t (getQueryType schema)
  || same t (getMutationType schema)
  || same t (getSubscriptionType schema).

(** The numbers N, M, K and T of the design: fields of the query, of the
    mutation and of the subscription root, and entries of the type map
    that are object types, no root and not introspection-reserved. *)
Definition fieldCount (root : option GraphQLObjectType) : nat :=
  List.length (rootFields root).

Definition plainObject (schema : GraphQLSchema)
    (e : Name * GraphQLNamedType) : bool :=
  match snd e with
  | ObjectType o =>
      negb (isRoot schema o) && negb (startsWith (text (fst e)) (lit "__"))
  | _ => false
  end.

Definition typeCount (schema : GraphQLSchema) : nat :=
  List.length (filter (plainObject schema) (entries (getTypeMap schema))).

(** ** The clean-up of the example script

    Before it regenerates the documents, the script of the example
    removes the output directory with [rimrafSync], which deletes the
    entries its [filter] answers true for. *)

(** [String.prototype.endsWith]. *)
Definition endsWith (s p : jsstring) : bool := startsWith (rev s) (rev p).

Module Cleanup.

Definition filter (v : jsstring) : bool :=
  negb (endsWith v (lit "index.mdx")) && negb (endsWith v (lit "meta.json")).

End Cleanup.

(** The title written from left to right: a hyphen gives a space and
    opens a segment, a boundary gives a space and the capital, any other
    code unit is copied, as its capital when it opens a segment.
    [capital] says whether a segment opens here, [prev] is the code unit
    before. *)
Fixpoint titleFrom (capital : bool) (prev : option N) (s : jsstring)
    : jsstring :=
  match s with
  | [] => []
  | c :: s' =>
      if (c =? Title.hyphen)%N then 32%N :: titleFrom true None s'
      else if Title.boundaryBefore prev c
           then 32%N :: Title.toUpper c :: titleFrom false (Some c) s'
           else (if capital then Title.toUpper c else c)
                :: titleFrom false (Some c) s'
  end.

(** ** Vocabulary of the further properties *)

(** The calls to the file system that writing the documents [docs]
    below [output] amounts to: per document, [mkdir] of the directory of
    its path, then [writeFile]. *)
Definition writeEvents (path_join : jsstring -> jsstring -> jsstring)
    (dirname : jsstring -> jsstring) (output : jsstring)
    (docs : list Document) : list event :=
  flat_map
    (fun d : Document =>
       let path := path_join output (fst d) in
       [EvMkdir (dirname path); EvWriteFile path (snd d)])
    docs.

Definition roots (schema : GraphQLSchema) : list (option GraphQLObjectType) :=
  [getQueryType schema; getMutationType schema; getSubscriptionType schema].

(** Identity determines the object: two roots of the same identity are
    the same object. *)
Definition oneObjectPerRef (schema : GraphQLSchema) : Prop :=
  forall a b,
    In (Some a) (roots schema) -> In (Some b) (roots schema) ->
    ref a = ref b -> a = b.

(** The indentation of the section heading in a document. *)
Definition sectionIndent (m : Member) : jsstring :=
  match m with
  | OperationMember _ _ => []
  | TypeMember _ _ => lit "  "
  end.

(** ** Sample schemas

    [demoSchema] is the schema of

      type Query { getKey(id: ID): String   "Health check" ping: String }
      type Mutation { addStory(title: String!, tags: [String]): Story }
      "A story" type Story { id: ID!  title: String }
      type Marker

    with the built-in scalars [String] and [ID] and the introspection
    type [__Schema]; [sharedSchema] is the schema of

      schema { query: Root  mutation: Root }
      type Root { ping: String }

    where one object serves as query and as mutation root. *)

Module Samples.

Definition name (s : string) (ok : isName (lit s) = true) : Name :=
  mkName (lit s) ok.

Definition ID : GraphQLType := NamedType (name "ID" eq_refl).
Definition String_ : GraphQLType := NamedType (name "String" eq_refl).
Definition Story_ : GraphQLType := NamedType (name "Story" eq_refl).

Definition getKey : GraphQLField :=
  mkField None [mkArgument (name "id" eq_refl) ID] String_.

Definition ping : GraphQLField :=
  mkField (Some (lit "Health check")) [] String_.

(** [bare: String], a field without description and arguments. *)
Definition bare : GraphQLField := mkField None [] String_.

(** ["## Arguments" shout: String] *)
Definition shout : GraphQLField :=
  mkField (Some (lit "## Arguments")) [] String_.

Definition addStory : GraphQLField :=
  mkField None
    [mkArgument (name "title" eq_refl) (NonNullType String_);
     mkArgument (name "tags" eq_refl) (ListType String_)]
    Story_.

Definition Query : GraphQLObjectType :=
  mkObjectType 1 (name "Query" eq_refl) None
    (mkObjMap [(name "getKey" eq_refl, getKey); (name "ping" eq_refl, ping)]
       eq_refl).

Definition Mutation : GraphQLObjectType :=
  mkObjectType 2 (name "Mutation" eq_refl) None
    (mkObjMap [(name "addStory" eq_refl, addStory)] eq_refl).

Definition Story : GraphQLObjectType :=
  mkObjectType 3 (name "Story" eq_refl) (Some (lit "A story"))
    (mkObjMap
       [(name "id" eq_refl, mkField None [] (NonNullType ID));
        (name "title" eq_refl, mkField None [] String_)]
       eq_refl).

Definition Marker : GraphQLObjectType :=
  mkObjectType 4 (name "Marker" eq_refl) None (mkObjMap [] eq_refl).

Definition Schema__ : GraphQLObjectType :=
  mkObjectType 5 (name "__Schema" eq_refl) None
    (mkObjMap [(name "description" eq_refl, mkField None [] String_)] eq_refl).

Definition demoSchema : GraphQLSchema :=
  mkSchema (Some Query) (Some Mutation) None
    (mkObjMap
       [(name "Query" eq_refl, ObjectType Query);
        (name "String" eq_refl, ScalarType);
        (name "ID" eq_refl, ScalarType);
        (name "Story" eq_refl, ObjectType Story);
        (name "Mutation" eq_refl, ObjectType Mutation);
        (name "Marker" eq_refl, ObjectType Marker);
        (name "__Schema" eq_refl, ObjectType Schema__)]
       eq_refl).

Definition Root : GraphQLObjectType :=
  mkObjectType 1 (name "Root" eq_refl) None
    (mkObjMap [(name "ping" eq_refl, mkField None [] String_)] eq_refl).

Definition sharedSchema : GraphQLSchema :=
  mkSchema (Some Root) (Some Root) None
    (mkObjMap
       [(name "Root" eq_refl, ObjectType Root);
        (name "String" eq_refl, ScalarType)]
       eq_refl).

(** A run environment in which the loader returns [demoSchema] and
    the file system never fails. *)
Definition loadDemo (input : jsstring) (w : unit)
    : unit * (unit + GraphQLSchema) :=
  (w, inr demoSchema).

Definition mkdirOk (dir : jsstring) (w : unit) : unit * (unit + unit) :=
  (w, inr tt).

Definition writeFileOk (path content : jsstring) (w : unit)
    : unit * (unit + unit) :=
  (w, inr tt).

(** A schema without root and without object type, its loader, and
    a file system that rejects every call. *)
Definition emptySchema : GraphQLSchema :=
  mkSchema None None None
    (mkObjMap [(name "String" eq_refl, ScalarType)] eq_refl).

Definition loadEmpty (input : jsstring) (w : unit)
    : unit * (unit + GraphQLSchema) :=
  (w, inr emptySchema).

Definition mkdirFails (dir : jsstring) (w : unit) : unit * (unit + unit) :=
  (w, inl tt).

Definition writeFileFails (path content : jsstring) (w : unit)
    : unit * (unit + unit) :=
  (w, inl tt).

(** A loader that rejects. *)
Definition loadFails (input : jsstring) (w : unit)
    : unit * (unit + GraphQLSchema) :=
  (w, inl tt).

Definition joinSlash (a b : jsstring) : jsstring := a ++ lit "/" ++ b.

(** What precedes the last [/] of a path. *)
Fixpoint dirnameOf (path : jsstring) : jsstring :=
  match path with
  | [] => []
  | c :: rest => if includes rest (lit "/") then c :: dirnameOf rest else []
  end.

(** The run of [generateAll] on [demoSchema] with output root [out]. *)
Definition demoRun : list event * unit * (unit + unit) :=
  generateAll loadDemo mkdirOk writeFileOk joinSlash dirnameOf
    (lit "schema.graphql") (lit "out") tt.

(** The same with a loader that rejects. *)
Definition failedRun : list event * unit * (unit + unit) :=
  generateAll loadFails mkdirOk writeFileOk joinSlash dirnameOf
    (lit "schema.graphql") (lit "out") tt.

End Samples.

(** * Properties *)

(** ** Strings *)

Section Strings.

Lemma trimEnd_app (a b : jsstring) :
  trimEnd (a ++ b) =
  match trimEnd b with
  | [] => trimEnd a
  | _ :: _ => a ++ trimEnd b
  end.
Proof.
  induction a as [|c a IH]; simpl.
  - destruct (trimEnd b); reflexivity.
  - rewrite IH. destruct (trimEnd b) as [|x t] eqn:E.
    + reflexivity.
    + destruct a; reflexivity.
Qed.

Lemma trimEnd_prefix (s : jsstring) :
  exists w, s = trimEnd s ++ w /\ forallb isWhiteSpace w = true.
Proof.
  induction s as [|c s [w [IH Hw]]]; simpl.
  - exists []. split; reflexivity.
  - destruct (trimEnd s) as [|x t] eqn:E.
    + destruct (isWhiteSpace c) eqn:Hc.
      * exists (c :: w). simpl in IH. subst s. simpl. rewrite Hc. auto.
      * exists w. simpl in *. subst s. auto.
    + exists w. split; [|assumption]. simpl. f_equal. exact IH.
Qed.

Lemma firm_app (a b : jsstring) : firm b -> firm (a ++ b).
Proof.
  intros [Hne Hb]. split.
  - intros H. apply app_eq_nil in H as [_ H]. contradiction.
  - rewrite trimEnd_app, Hb. destruct b; [contradiction|reflexivity].
Qed.

(** Behind a firm prefix only the tail is trimmed. *)
Lemma trimEnd_firm_app (a b : jsstring) :
  firm a -> trimEnd (a ++ b) = a ++ trimEnd b.
Proof.
  intros [_ Ha]. rewrite trimEnd_app.
  destruct (trimEnd b); [now rewrite app_nil_r|reflexivity].
Qed.

Lemma nameContinue_not_white (c : N) :
  isNameContinue c = true -> isWhiteSpace c = false.
Proof.
  intros H.
  assert (Hc : (48 <= c <= 122)%N).
  { unfold isNameContinue, isNameStart in H.
    rewrite ?orb_true_iff, ?andb_true_iff, ?N.eqb_eq, ?N.leb_le in H. lia. }
  unfold isWhiteSpace.
  rewrite (proj2 (N.leb_gt c 13)) by lia.
  rewrite (proj2 (N.leb_gt 8192 c)) by lia.
  rewrite !(proj2 (N.eqb_neq c _)) by lia.
  rewrite andb_false_r. reflexivity.
Qed.

Lemma trimEnd_solid (s : jsstring) :
  forallb (fun c => negb (isWhiteSpace c)) s = true -> trimEnd s = s.
Proof.
  induction s as [|c s IH]; simpl; intros H; [reflexivity|].
  apply andb_true_iff in H as [Hc Hs]. rewrite (IH Hs).
  destruct s; [|reflexivity].
  apply negb_true_iff in Hc. now rewrite Hc.
Qed.

Lemma name_chars (n : Name) (c : N) :
  In c (text n) -> isNameContinue c = true.
Proof.
  destruct n as [s Hs]. simpl. destruct s as [|c0 rest]; [discriminate|].
  simpl in Hs. apply andb_true_iff in Hs as [H0 Hrest].
  intros [<-|Hin].
  - unfold isNameContinue. now rewrite H0.
  - rewrite forallb_forall in Hrest. now apply Hrest.
Qed.

Lemma name_nonempty (n : Name) : text n <> [].
Proof. destruct n as [[|c s] Hs]; [discriminate|]. simpl. discriminate. Qed.

Lemma name_firm (n : Name) : firm (text n).
Proof.
  split; [apply name_nonempty|].
  apply trimEnd_solid, forallb_forall. intros c Hc.
  apply negb_true_iff, nameContinue_not_white, (name_chars n c Hc).
Qed.

Lemma name_without (n : Name) (c : N) :
  isNameContinue c = false -> ~ In c (text n).
Proof. intros Hc Hin. rewrite (name_chars n c Hin) in Hc. discriminate. Qed.

Lemma toString_firm (t : GraphQLType) : firm (toString t).
Proof.
  induction t as [n|t IH|t IH]; cbn [toString].
  - apply name_firm.
  - apply firm_app, firm_app. split; [discriminate|reflexivity].
  - apply firm_app. split; [discriminate|reflexivity].
Qed.

Lemma join_firm (sep : jsstring) (l : list jsstring) :
  l <> [] -> Forall firm l -> firm (join sep l).
Proof.
  induction l as [|x l IH]; intros Hne Hall; [contradiction|].
  inversion Hall as [|? ? Hx Hl]; subst.
  destruct l as [|y l]; [exact Hx|].
  change (firm (x ++ sep ++ join sep (y :: l))).
  apply firm_app, firm_app, IH; [discriminate|assumption].
Qed.

(** *** Lines *)

Lemma lines_nonempty (s : jsstring) : lines s <> [].
Proof.
  induction s as [|c s IH]; simpl; [discriminate|].
  destruct (c =? nl)%N; [discriminate|].
  destruct (lines s); [contradiction|discriminate].
Qed.

Lemma lines_app_nl (a b : jsstring) :
  lines (a ++ nl :: b) = lines a ++ lines b.
Proof.
  induction a as [|c a IH]; simpl; [reflexivity|].
  destruct (c =? nl)%N; rewrite IH; [reflexivity|].
  pose proof (lines_nonempty a) as Hne.
  destruct (lines a); [contradiction|reflexivity].
Qed.

Lemma lines_single (l : jsstring) : ~ In nl l -> lines l = [l].
Proof.
  induction l as [|c l IH]; simpl; intros H; [reflexivity|].
  destruct (N.eqb_spec c nl) as [->|_]; [exfalso; auto|].
  rewrite IH by tauto. reflexivity.
Qed.

(** A run of code units without line feed, after a line feed and before
    a line feed or the end, is a line. *)
Lemma line_in_lines (a l r : jsstring) :
  ~ In nl l -> (r = [] \/ exists r', r = nl :: r') ->
  In l (lines (a ++ nl :: l ++ r)).
Proof.
  intros Hl Hr. rewrite lines_app_nl. apply in_or_app. right.
  destruct Hr as [->|[r' ->]].
  - rewrite app_nil_r, lines_single by assumption. now left.
  - rewrite lines_app_nl, lines_single by assumption. now left.
Qed.

(** *** Occurrences *)

Lemma startsWith_iff (s p : jsstring) :
  startsWith s p = true <-> exists y, s = p ++ y.
Proof.
  revert s. induction p as [|x p IH]; intros s; simpl.
  - split; [intros _; now exists s|reflexivity].
  - destruct s as [|y s].
    + split; [discriminate|intros [z Hz]; discriminate].
    + rewrite andb_true_iff, N.eqb_eq, IH. split.
      * intros [-> [z ->]]. now exists z.
      * intros [z Hz]. injection Hz as -> ->. split; [reflexivity|now exists z].
Qed.

Lemma includes_iff (s p : jsstring) :
  includes s p = true <-> occurs p s.
Proof.
  induction s as [|c s IH].
  - cbn [includes]. rewrite orb_false_r, startsWith_iff. split.
    + intros [y Hy]. now exists [], y.
    + intros [x [y H]]. destruct x; [now exists y|discriminate].
  - cbn [includes]. rewrite orb_true_iff, startsWith_iff, IH. split.
    + intros [[y Hy]|[x [y Hxy]]].
      * now exists [], y.
      * exists (c :: x), y. simpl. now f_equal.
    + intros [x [y H]]. destruct x as [|c' x].
      * left. now exists y.
      * right. injection H as _ H. now exists x, y.
Qed.

Lemma includes_false_iff (s p : jsstring) :
  includes s p = false <-> ~ occurs p s.
Proof.
  rewrite <- includes_iff. destruct (includes s p); split; intros H;
    try reflexivity; try discriminate; try (intros H'; discriminate).
  exfalso. now apply H.
Qed.

Lemma occurs_app_l (p a b : jsstring) : occurs p a -> occurs p (a ++ b).
Proof.
  intros [x [y ->]]. exists x, (y ++ b). now rewrite <- !app_assoc.
Qed.

Lemma occurs_cons (p : jsstring) (c : N) (s : jsstring) :
  occurs p s -> occurs p (c :: s).
Proof. intros [x [y ->]]. now exists (c :: x), y. Qed.

Lemma occurs_chars (p s : jsstring) (c : N) :
  occurs p s -> In c p -> In c s.
Proof.
  intros [x [y ->]] Hc. apply in_or_app. right. apply in_or_app. now left.
Qed.

Lemma prefix_before (p y a b : jsstring) (c : N) :
  ~ In c p -> p ++ y = a ++ c :: b -> exists a', a = p ++ a'.
Proof.
  revert a. induction p as [|q p IH]; intros a Hc H.
  - now exists a.
  - destruct a as [|h a]; simpl in H.
    + injection H as -> _. exfalso. apply Hc. now left.
    + injection H as -> H. destruct (IH a) as [a' ->].
      * intros Hin. apply Hc. now right.
      * exact H.
      * now exists a'.
Qed.

(** An occurrence cannot span a code unit that the pattern lacks. *)
Lemma occurs_sep (p a b : jsstring) (c : N) :
  ~ In c p -> occurs p (a ++ c :: b) -> occurs p a \/ occurs p b.
Proof.
  intros Hc. induction a as [|h a IH]; intros [x [y H]].
  - destruct x as [|h x]; simpl in H.
    + left. destruct p as [|q p]; [now exists [], []|].
      injection H as <- _. exfalso. apply Hc. now left.
    + right. injection H as _ ->. now exists x, y.
  - destruct x as [|h' x].
    + left. destruct (@prefix_before p y (h :: a) b c Hc) as [a' Ha'].
      * symmetry. exact H.
      * rewrite Ha'. now exists [], a'.
    + injection H as _ H. destruct IH as [Ha|Hb].
      * now exists x, y.
      * left. now apply occurs_cons.
      * now right.
Qed.

(** An occurrence cannot start inside a prefix that lacks the first
    code unit of the pattern. *)
Lemma occurs_skip (q : N) (p a b : jsstring) :
  ~ In q a -> occurs (q :: p) (a ++ b) -> occurs (q :: p) b.
Proof.
  induction a as [|h a IH]; intros Hq [x [y H]].
  - now exists x, y.
  - destruct x as [|h' x]; simpl in H.
    + injection H as -> _. exfalso. apply Hq. now left.
    + injection H as _ H. apply IH.
      * intros Hin. apply Hq. now right.
      * now exists x, y.
Qed.

End Strings.

(** ** The renderer *)

Section Renderer.

Lemma operationContent_eq (fieldName : jsstring) (field : GraphQLField) :
  operationContent fieldName field =
  trimEnd (operationHead fieldName field ++ operationTail field).
Proof.
  unfold operationContent, operationHead, operationTail, frontMatter,
    operationDescription, argumentsSection, trim.
  rewrite map_map, length_map.
  destruct (field_args field) as [|a args]; cbn -[join trimEnd nullish];
    rewrite <- ?app_assoc; cbn -[join trimEnd nullish];
    rewrite <- ?app_assoc; reflexivity.
Qed.

Lemma operationHead_firm (n : Name) (field : GraphQLField) :
  firm (operationHead (text n) field).
Proof.
  unfold operationHead. apply firm_app, firm_app, firm_app, name_firm.
Qed.

Lemma operationContent_head (n : Name) (field : GraphQLField) :
  operationContent (text n) field =
  operationHead (text n) field ++ trimEnd (operationTail field).
Proof.
  rewrite operationContent_eq. apply trimEnd_firm_app, operationHead_firm.
Qed.

Lemma typeContent_eq (typeName : jsstring) (type : GraphQLObjectType) :
  typeContent typeName type =
  trimEnd (typeHead typeName ++ typeTail type).
Proof.
  unfold typeContent, typeHead, typeTail, frontMatter, fieldsSection,
    fieldDefinition, trim.
  rewrite length_map.
  destruct (entries (getFields type)) as [|e es];
    cbn -[join trimEnd nullish];
    rewrite <- ?app_assoc; cbn -[join trimEnd nullish];
    rewrite <- ?app_assoc; reflexivity.
Qed.

Lemma typeHead_firm (n : Name) : firm (typeHead (text n)).
Proof.
  unfold typeHead. apply firm_app, firm_app, firm_app, name_firm.
Qed.

Lemma typeContent_head (n : Name) (type : GraphQLObjectType) :
  typeContent (text n) type = typeHead (text n) ++ trimEnd (typeTail type).
Proof.
  rewrite typeContent_eq. apply trimEnd_firm_app, typeHead_firm.
Qed.

(** What is left of a tail that starts on a line feed starts on a line
    feed, or nothing is left. *)
Lemma trimEnd_after_nl (s : jsstring) :
  trimEnd (nl :: s) = [] \/ exists r, trimEnd (nl :: s) = nl :: r.
Proof.
  destruct (trimEnd_prefix (nl :: s)) as [w [H _]].
  destruct (trimEnd (nl :: s)) as [|c r]; [now left|right].
  injection H as <- _. now exists r.
Qed.

End Renderer.

(** ** The walker *)

Section Walker.

Variable schema : GraphQLSchema.

Lemma processFields_eq (root : option GraphQLObjectType)
    (operations : list OperationDoc) :
  processFields schema root operations
  = operations ++ operationsOf schema root.
Proof.
  destruct root as [t|]; simpl; [|now rewrite app_nil_r].
  revert operations.
  induction (entries (getFields t)) as [|[fieldName field] l IH];
    intros operations; simpl.
  - now rewrite app_nil_r.
  - rewrite IH, <- app_assoc. reflexivity.
Qed.

Lemma generateOperations_eq :
  generateOperations schema
  = operationsOf schema (getQueryType schema)
    ++ operationsOf schema (getMutationType schema)
    ++ operationsOf schema (getSubscriptionType schema).
Proof.
  unfold generateOperations. rewrite !processFields_eq, <- app_assoc.
  reflexivity.
Qed.

Lemma pushTypes_eq (l : list (Name * GraphQLNamedType))
    (types : list TypeDoc) :
  fold_left
    (fun types (e : Name * GraphQLNamedType) =>
       let (typeName, type) := e in
       match documentedType schema (text typeName) type with
       | Some o =>
           types ++ [ {| ty_name := text typeName;
                         ty_content := typeContent (text typeName) o |} ]
       | None => types
       end) l types
  = types
    ++ map typeOf
         (flat_map
            (fun e : Name * GraphQLNamedType =>
               match documentedType schema (text (fst e)) (snd e) with
               | Some o => [(fst e, o)]
               | None => []
               end) l).
Proof.
  revert types. induction l as [|[typeName type] l IH]; intros types; simpl.
  - now rewrite app_nil_r.
  - rewrite IH.
    destruct (documentedType schema typeName type) as [o|]; simpl.
    + rewrite <- app_assoc. reflexivity.
    + reflexivity.
Qed.

Lemma generateTypes_eq :
  generateTypes schema = map typeOf (documentedTypes schema).
Proof. apply pushTypes_eq. Qed.

(** Every emitted operation document is that of a field of a root. *)
Lemma in_generateOperations (operation : OperationDoc) :
  In operation (generateOperations schema) <->
  exists t e,
    In (Some t) [getQueryType schema; getMutationType schema;
                 getSubscriptionType schema]
    /\ In e (entries (getFields t))
    /\ operation = operationOf schema t e.
Proof.
  rewrite generateOperations_eq, !in_app_iff. split.
  - assert (Hof : forall root, In operation (operationsOf schema root) ->
              exists t e, root = Some t /\ In e (entries (getFields t))
                          /\ operation = operationOf schema t e).
    { intros [t|] H; [|contradiction]. apply in_map_iff in H as [e [<- He]].
      now exists t, e. }
    intros [H|[H|H]]; apply Hof in H as [t [e [Hr [He Ho]]]];
      exists t, e; rewrite <- Hr; simpl; tauto.
  - intros [t [e [Hr [He ->]]]].
    assert (Hin : In (operationOf schema t e) (operationsOf schema (Some t)))
      by (simpl; now apply in_map).
    destruct Hr as [Hr|[Hr|[Hr|[]]]]; rewrite Hr; tauto.
Qed.

Lemma in_generateTypes (type : TypeDoc) :
  In type (generateTypes schema) <->
  exists e, In e (documentedTypes schema) /\ type = typeOf e.
Proof.
  rewrite generateTypes_eq, in_map_iff. split; intros [e [H1 H2]];
    exists e; auto.
Qed.

End Walker.

(** ** Keys of an object *)

Lemma eqs_eq (a b : jsstring) : eqs a b = true <-> a = b.
Proof.
  revert b. induction a as [|x a IH]; intros [|y b]; simpl;
    try (split; [discriminate|discriminate]); try tauto.
  rewrite andb_true_iff, N.eqb_eq, IH. split.
  - intros [-> ->]. reflexivity.
  - intros H. injection H as -> ->. auto.
Qed.

Lemma mem_In (x : jsstring) (l : list jsstring) : mem x l = true <-> In x l.
Proof.
  induction l as [|y l IH]; simpl; [split; [discriminate|tauto]|].
  rewrite orb_true_iff, eqs_eq, IH. split; intros [H|H]; auto.
Qed.

Lemma distinct_NoDup (l : list jsstring) : distinct l = true -> NoDup l.
Proof.
  induction l as [|x l IH]; simpl; intros H; constructor;
    apply andb_true_iff in H as [Hx Hl].
  - rewrite <- mem_In. now destruct (mem x l).
  - auto.
Qed.

Lemma keys_NoDup (V : Type) (m : ObjMap V) :
  NoDup (map (fun e => text (fst e)) (entries m)).
Proof. apply distinct_NoDup, keys_distinct. Qed.

Lemma NoDup_map_eq (A B : Type) (f : A -> B) (l : list A) (x y : A) :
  NoDup (map f l) -> In x l -> In y l -> f x = f y -> x = y.
Proof.
  induction l as [|a l IH]; simpl; intros Hnd Hx Hy Hxy; [contradiction|].
  inversion Hnd as [|? ? Hnotin Hnd']; subst.
  destruct Hx as [->|Hx], Hy as [->|Hy]; auto.
  - exfalso. apply Hnotin. rewrite Hxy. now apply in_map.
  - exfalso. apply Hnotin. rewrite <- Hxy. now apply in_map.
Qed.

(** An object has one entry per key. *)
Lemma entry_unique (V : Type) (m : ObjMap V) (e1 e2 : Name * V) :
  In e1 (entries m) -> In e2 (entries m) ->
  text (fst e1) = text (fst e2) -> e1 = e2.
Proof.
  intros H1 H2 H.
  exact (NoDup_map_eq (fun e => text (fst e)) _ e1 e2 (keys_NoDup m) H1 H2 H).
Qed.

(** ** Type documents *)

Lemma documentedType_Some (schema : GraphQLSchema) (typeName : jsstring)
    (type : GraphQLNamedType) (o : GraphQLObjectType) :
  documentedType schema typeName type = Some o <->
  type = ObjectType o
  /\ startsWith typeName (lit "__") = false
  /\ same o (getQueryType schema) = false
  /\ same o (getMutationType schema) = false
  /\ same o (getSubscriptionType schema) = false.
Proof.
  split.
  - destruct type as [o'| | | | |]; cbn [documentedType];
      try (intros H; discriminate H).
    destruct (startsWith typeName (lit "__")),
      (same o' (getQueryType schema)) eqn:Hq,
      (same o' (getMutationType schema)) eqn:Hm,
      (same o' (getSubscriptionType schema)) eqn:Hs; cbn [negb andb];
      intros H; try discriminate H; injection H as <-;
      repeat split; assumption.
  - intros [-> [H1 [H2 [H3 H4]]]]. cbn [documentedType].
    now rewrite H1, H2, H3, H4.
Qed.

Lemma in_documentedTypes (schema : GraphQLSchema)
    (e : Name * GraphQLObjectType) :
  In e (documentedTypes schema) <->
  exists type,
    In (fst e, type) (entries (getTypeMap schema))
    /\ documentedType schema (text (fst e)) type = Some (snd e).
Proof.
  unfold documentedTypes. rewrite in_flat_map. split.
  - intros [[typeName type] [Hin H]]. simpl in H.
    destruct (documentedType schema typeName type) as [o|] eqn:Hd;
      [|contradiction].
    destruct H as [<-|[]]. now exists type.
  - intros [type [Hin H]]. exists (fst e, type). split; [exact Hin|].
    simpl. rewrite H. left. now destruct e.
Qed.

(** C3. A named type of the type map yields a type document exactly
    when it is an object type, is none of the three root operation types
    (by identity) and has a name that does not start with two
    underscores; and a document of that name is the rendering of that
    object under that name. *)
Theorem type_document_iff (schema : GraphQLSchema) (typeName : Name)
    (type : GraphQLNamedType) :
  In (typeName, type) (entries (getTypeMap schema)) ->
  ((exists doc, In doc (generateTypes schema) /\ ty_name doc = text typeName)
   <->
   (exists o,
      type = ObjectType o
      /\ startsWith (text typeName) (lit "__") = false
      /\ same o (getQueryType schema) = false
      /\ same o (getMutationType schema) = false
      /\ same o (getSubscriptionType schema) = false))
  /\ (forall doc,
        In doc (generateTypes schema) -> ty_name doc = text typeName ->
        exists o,
          type = ObjectType o
          /\ doc = {| ty_name := text typeName;
                      ty_content := typeContent (text typeName) o |}).
Proof.
  intros Hin.
  assert (Hdoc : forall doc,
            In doc (generateTypes schema) -> ty_name doc = text typeName ->
            exists o,
              documentedType schema (text typeName) type = Some o
              /\ doc = typeOf (typeName, o)).
  { intros doc Hdoc Hname.
    apply in_generateTypes in Hdoc as [[k o] [He ->]]. simpl in Hname.
    apply in_documentedTypes in He as [type' [Hin' Hd]]. simpl in *.
    assert (Heq : (k, type') = (typeName, type))
      by (apply (entry_unique (getTypeMap schema)); auto).
    injection Heq as -> ->. now exists o. }
  split; [split|].
  - intros [doc [Hin' Hname]].
    destruct (Hdoc doc Hin' Hname) as [o [Hd _]].
    exists o. now apply documentedType_Some.
  - intros [o Hconditions].
    apply documentedType_Some in Hconditions.
    exists (typeOf (typeName, o)). split; [|reflexivity].
    apply in_generateTypes. exists (typeName, o). split; [|reflexivity].
    apply in_documentedTypes. now exists type.
  - intros doc Hin' Hname.
    destruct (Hdoc doc Hin' Hname) as [o [Hd ->]].
    exists o. split; [|reflexivity]. now apply documentedType_Some in Hd.
Qed.

Lemma type_document_iff_witness :
  (exists doc,
      In doc (generateTypes Samples.demoSchema) /\ ty_name doc = lit "Story")
  /\ ~ (exists doc,
          In doc (generateTypes Samples.demoSchema)
          /\ ty_name doc = lit "__Schema").
Proof.
  split.
  - apply (@type_document_iff Samples.demoSchema
             (Samples.name "Story" eq_refl) (ObjectType Samples.Story)).
    + simpl. tauto.
    + exists Samples.Story. repeat split.
  - intros H.
    apply (@type_document_iff Samples.demoSchema
             (Samples.name "__Schema" eq_refl) (ObjectType Samples.Schema__))
      in H.
    + destruct H as [o [_ [H _]]]. discriminate.
    + simpl. tauto.
Defined.

(** ** Front-matter and heading *)

Lemma operation_starts_with_front_matter (n : Name) (field : GraphQLField) :
  operationContent (text n) field
  = frontMatter (text n)
      (match field_description field with
       | Some description => description
       | None => lit "Description for " ++ text n
       end)
    ++ [nl] ++ lit "# " ++ text n ++ trimEnd (operationTail field).
Proof.
  rewrite operationContent_head. unfold operationHead, operationDescription.
  rewrite <- !app_assoc. reflexivity.
Qed.

(** C4. For every operation member (a field of a root operation type)
    the walker emits a document whose content starts with the
    front-matter block: [title:] is the raw field name, [description:] is
    the description of the field when it has one and
    "Description for <name>" when it has none. *)
Theorem operation_front_matter (schema : GraphQLSchema)
    (t : GraphQLObjectType) (fieldName : Name) (field : GraphQLField) :
  In (Some t) [getQueryType schema; getMutationType schema;
               getSubscriptionType schema] ->
  In (fieldName, field) (entries (getFields t)) ->
  exists rest,
    In {| op_name := text fieldName;
          op_type := getOperationType schema t;
          op_content :=
            frontMatter (text fieldName)
              (match field_description field with
               | Some description => description
               | None => lit "Description for " ++ text fieldName
               end)
            ++ rest |}
       (generateOperations schema).
Proof.
  intros Hroot Hfield.
  exists ([nl] ++ lit "# " ++ text fieldName ++ trimEnd (operationTail field)).
  rewrite <- operation_starts_with_front_matter.
  apply in_generateOperations. exists t, (fieldName, field). auto.
Qed.

Lemma operation_front_matter_witness :
  exists rest,
    In {| op_name := lit "getKey";
          op_type := lit "query";
          op_content :=
            frontMatter (lit "getKey") (lit "Description for getKey") ++ rest |}
       (generateOperations Samples.demoSchema).
Proof.
  apply (@operation_front_matter Samples.demoSchema Samples.Query
           (Samples.name "getKey" eq_refl) Samples.getKey).
  - simpl. auto.
  - simpl. auto.
Defined.

Lemma heading_has_no_line_feed (indent : nat) (n : Name) :
  ~ In nl (headingLine indent (text n)).
Proof.
  unfold headingLine. rewrite !in_app_iff. intros [H|[H|H]].
  - apply repeat_spec in H. discriminate.
  - simpl in H. destruct H as [H|[H|[]]]; discriminate.
  - revert H. now apply name_without.
Qed.

Lemma operation_heading (n : Name) (field : GraphQLField) :
  In (headingLine 0 (text n)) (lines (operationContent (text n) field)).
Proof.
  rewrite operationContent_head. unfold operationHead.
  rewrite <- !app_assoc.
  apply (@line_in_lines (frontMatter (text n) _) (headingLine 0 (text n))).
  - apply heading_has_no_line_feed.
  - apply trimEnd_after_nl.
Qed.

Lemma type_heading (n : Name) (type : GraphQLObjectType) :
  In (headingLine 2 (text n)) (lines (typeContent (text n) type)).
Proof.
  rewrite typeContent_head. unfold typeHead.
  rewrite <- !app_assoc.
  apply (@line_in_lines (frontMatter (text n) _) (headingLine 2 (text n))).
  - apply heading_has_no_line_feed.
  - apply trimEnd_after_nl.
Qed.

(** C7. Every rendered document has a level-1 heading line made of
    [# ] and the raw member name: in an operation document the line is
    exactly that, in a type document the template indents it by two
    spaces, which Markdown still reads as a level-1 heading. *)
Theorem every_document_has_heading (schema : GraphQLSchema) :
  Forall (fun operation =>
            In (headingLine 0 (op_name operation))
               (lines (op_content operation)))
         (generateOperations schema)
  /\ Forall (fun type =>
               In (headingLine 2 (ty_name type)) (lines (ty_content type)))
            (generateTypes schema).
Proof.
  split; apply Forall_forall.
  - intros operation H.
    apply in_generateOperations in H as [t [[n field] [_ [_ ->]]]].
    apply operation_heading.
  - intros type H. apply in_generateTypes in H as [[n o] [_ ->]].
    apply type_heading.
Qed.

(** ** Classification *)

Section Classification.

Variable schema : GraphQLSchema.

Lemma same_refl (t : GraphQLObjectType) : same t (Some t) = true.
Proof. apply N.eqb_refl. Qed.

Lemma same_sym (t u : GraphQLObjectType) : same t (Some u) = same u (Some t).
Proof. apply N.eqb_sym. Qed.

Lemma same_ref (t t' : GraphQLObjectType) (root : option GraphQLObjectType) :
  ref t' = ref t -> same t' root = same t root.
Proof. intros H. destruct root; simpl; [now rewrite H|reflexivity]. Qed.

(** The kind is that of the first root the type is identical to. *)
Lemma getOperationType_cases (t : GraphQLObjectType) :
  (getOperationType schema t = lit "query"
   <-> same t (getQueryType schema) = true)
  /\ (getOperationType schema t = lit "mutation"
      <-> same t (getQueryType schema) = false
          /\ same t (getMutationType schema) = true)
  /\ (getOperationType schema t = lit "subscription"
      <-> same t (getQueryType schema) = false
          /\ same t (getMutationType schema) = false
          /\ same t (getSubscriptionType schema) = true)
  /\ (getOperationType schema t = lit "type"
      <-> same t (getQueryType schema) = false
          /\ same t (getMutationType schema) = false
          /\ same t (getSubscriptionType schema) = false).
Proof.
  unfold getOperationType.
  destruct (same t (getQueryType schema)),
    (same t (getMutationType schema)),
    (same t (getSubscriptionType schema));
    repeat split; intros; try discriminate; try reflexivity;
    repeat match goal with H : _ /\ _ |- _ => destruct H end;
    discriminate.
Qed.

Lemma query_kind (t : GraphQLObjectType) :
  getQueryType schema = Some t -> getOperationType schema t = lit "query".
Proof.
  intros H. apply getOperationType_cases. rewrite H. apply same_refl.
Qed.

Lemma mutation_kind (t : GraphQLObjectType) :
  distinctRoots schema = true ->
  getMutationType schema = Some t ->
  getOperationType schema t = lit "mutation".
Proof.
  unfold distinctRoots. intros Hd H. apply getOperationType_cases.
  rewrite H in *. split; [|apply same_refl].
  destruct (getQueryType schema) as [q|]; [|reflexivity].
  simpl in Hd. rewrite same_sym. simpl.
  destruct (ref q =? ref t)%N; [discriminate|reflexivity].
Qed.

Lemma subscription_kind (t : GraphQLObjectType) :
  distinctRoots schema = true ->
  getSubscriptionType schema = Some t ->
  getOperationType schema t = lit "subscription".
Proof.
  unfold distinctRoots. intros Hd H. apply getOperationType_cases.
  rewrite H in *. repeat split; [| |apply same_refl].
  - destruct (getQueryType schema) as [q|]; [|reflexivity].
    simpl in Hd. rewrite same_sym. simpl.
    destruct (ref q =? ref t)%N; [|reflexivity].
    rewrite andb_false_r in Hd. discriminate.
  - destruct (getMutationType schema) as [m|]; [|reflexivity].
    simpl in Hd. rewrite same_sym. simpl.
    destruct (ref m =? ref t)%N; [|reflexivity].
    rewrite andb_false_r in Hd. discriminate.
Qed.

End Classification.

(** C2, as the code has it.  The kind of the fields of an object type
    is decided by the identity of the type alone: it is that of the
    first of the query, mutation and subscription roots that the type is
    identical to, and 'type' when it is none of them; two objects of the
    same identity get the same kind whatever their names.  When the
    roots are pairwise different objects, the fields of the query,
    mutation and subscription roots are of kind 'query', 'mutation' and
    'subscription' respectively. *)
Theorem classification_by_identity (schema : GraphQLSchema)
    (t : GraphQLObjectType) :
  ((getOperationType schema t = lit "query"
    <-> same t (getQueryType schema) = true)
   /\ (getOperationType schema t = lit "mutation"
       <-> same t (getQueryType schema) = false
           /\ same t (getMutationType schema) = true)
   /\ (getOperationType schema t = lit "subscription"
       <-> same t (getQueryType schema) = false
           /\ same t (getMutationType schema) = false
           /\ same t (getSubscriptionType schema) = true)
   /\ (getOperationType schema t = lit "type"
       <-> isRoot schema t = false))
  /\ (forall t', ref t' = ref t ->
        getOperationType schema t' = getOperationType schema t)
  /\ (distinctRoots schema = true ->
      (getQueryType schema = Some t ->
       Forall (fun operation => op_type operation = lit "query")
         (processFields schema (Some t) []))
      /\ (getMutationType schema = Some t ->
          Forall (fun operation => op_type operation = lit "mutation")
            (processFields schema (Some t) []))
      /\ (getSubscriptionType schema = Some t ->
          Forall (fun operation => op_type operation = lit "subscription")
            (processFields schema (Some t) []))).
Proof.
  split; [|split].
  - destruct (getOperationType_cases schema t) as [Hq [Hm [Hs Ht]]].
    split; [exact Hq|]. split; [exact Hm|]. split; [exact Hs|].
    rewrite Ht. unfold isRoot. rewrite !orb_false_iff. tauto.
  - intros t' H. unfold getOperationType. now rewrite !(@same_ref t t' _ H).
  - intros Hd.
    assert (Hall : forall kind, getOperationType schema t = kind ->
              Forall (fun operation => op_type operation = kind)
                (processFields schema (Some t) [])).
    { intros kind Hk. rewrite processFields_eq. simpl.
      apply Forall_forall. intros operation H.
      apply in_map_iff in H as [e [<- _]]. exact Hk. }
    repeat split; intros H; apply Hall.
    + now apply query_kind.
    + now apply mutation_kind.
    + now apply subscription_kind.
Qed.

Lemma classification_by_identity_witness :
  Forall (fun operation => op_type operation = lit "mutation")
    (processFields Samples.demoSchema (Some Samples.Mutation) []).
Proof.
  apply (classification_by_identity Samples.demoSchema Samples.Mutation);
    reflexivity.
Defined.

(** The schema with one object as query and as mutation root: the
    fields of the mutation root are classified 'query'. *)
Lemma shared_root_is_query :
  getMutationType Samples.sharedSchema = Some Samples.Root
  /\ getOperationType Samples.sharedSchema Samples.Root <> lit "mutation"
  /\ map op_type
       (processFields Samples.sharedSchema
          (getMutationType Samples.sharedSchema) [])
     = [lit "query"].
Proof.
  split; [reflexivity|]. split; [|reflexivity]. intros H. discriminate H.
Qed.

(** ** Documents and their paths *)

Section Paths.

Variable schema : GraphQLSchema.

(** The documents of the fields of one root, under the kind that
    [getOperationType] gives to the root. *)
Lemma documents_of_root (root : option GraphQLObjectType) :
  map (fun operation => (operationPath operation, op_content operation))
    (operationsOf schema root)
  = match root with
    | Some t =>
        map (operationDocument (getOperationType schema t))
          (entries (getFields t))
    | None => []
    end.
Proof.
  destruct root as [t|]; [|reflexivity]. simpl. rewrite map_map.
  reflexivity.
Qed.

Lemma documents_of_types :
  map (fun type => (typePath type, ty_content type)) (generateTypes schema)
  = map typeDocument (documentedTypes schema).
Proof. rewrite generateTypes_eq, map_map. reflexivity. Qed.

Lemma documents_of_kind (kind : jsstring) (root : option GraphQLObjectType) :
  (forall t, root = Some t -> getOperationType schema t = kind) ->
  map (fun operation => (operationPath operation, op_content operation))
    (operationsOf schema root)
  = map (operationDocument kind) (rootFields root).
Proof.
  intros H. rewrite documents_of_root. destruct root as [t|]; [|reflexivity].
  now rewrite (H t eq_refl).
Qed.

Lemma typeCount_eq : List.length (documentedTypes schema) = typeCount schema.
Proof.
  unfold typeCount, documentedTypes.
  induction (entries (getTypeMap schema)) as [|[typeName type] l IH];
    [reflexivity|].
  cbn [flat_map filter]. rewrite length_app, IH.
  unfold plainObject, isRoot. cbn [fst snd].
  destruct type as [o| | | | |]; cbn [documentedType]; try reflexivity.
  destruct (startsWith typeName (lit "__")),
    (same o (getQueryType schema)),
    (same o (getMutationType schema)),
    (same o (getSubscriptionType schema)); reflexivity.
Qed.

Lemma documentedTypes_keys_NoDup :
  NoDup (map (fun e => text (fst e)) (documentedTypes schema)).
Proof.
  unfold documentedTypes. pose proof (keys_NoDup (getTypeMap schema)) as H.
  induction (entries (getTypeMap schema)) as [|[typeName type] l IH];
    [constructor|].
  inversion H as [|? ? Hnotin Hl]; subst. cbn [flat_map fst snd].
  destruct (documentedType schema typeName type) as [o|]; [|now apply IH].
  simpl. constructor; [|now apply IH].
  intros Hin. apply Hnotin.
  apply in_map_iff in Hin as [[k o'] [Hk Hin]].
  apply in_flat_map in Hin as [[k' type'] [Hin' Hsel]]. cbn [fst snd] in *.
  destruct (documentedType schema k' type'); [|contradiction].
  destruct Hsel as [Heq|[]]. injection Heq as -> _.
  rewrite <- Hk. now apply (in_map (fun e => text (fst e)) l (k, type')).
Qed.

End Paths.

Lemma paths_NoDup (V : Type) (prefix : jsstring) (l : list (Name * V)) :
  NoDup (map (fun e => text (fst e)) l) ->
  NoDup (map (fun e => prefix ++ text (fst e) ++ lit ".mdx") l).
Proof.
  induction l as [|e l IH]; simpl; intros H; [constructor|].
  inversion H as [|? ? Hnotin Hl]; subst. constructor; [|now apply IH].
  intros Hin. apply Hnotin. apply in_map_iff in Hin as [e' [He' Hin]].
  apply app_inv_head, app_inv_tail in He'. rewrite <- He'.
  now apply (in_map (fun e => text (fst e))).
Qed.

Lemma NoDup_app_by (A B : Type) (f : A -> B) (b : B) (l1 l2 : list A) :
  Forall (fun x => f x = b) l1 -> Forall (fun x => f x <> b) l2 ->
  NoDup l1 -> NoDup l2 -> NoDup (l1 ++ l2).
Proof.
  intros H1 H2 N1 N2. apply NoDup_app; auto.
  intros a Ha1 Ha2. rewrite Forall_forall in H1, H2.
  exact (H2 a Ha2 (H1 a Ha1)).
Qed.

(** C1, as the code has it.  For a schema whose root operation types
    are pairwise different objects, with N query fields, M mutation
    fields, K subscription fields and T object types of the type map
    that are neither roots nor introspection-reserved: the documents are
    those of the query fields at [query/<name>.mdx], of the mutation
    fields at [mutation/<name>.mdx], of the subscription fields at
    [subscription/<name>.mdx] and of the T types at [types/<name>.mdx];
    there are N+M+K+T of them, their directories are [query] N times,
    [mutation] M times, [subscription] K times, [types] T times, and no
    two output paths are equal. *)
Theorem documents_partition (schema : GraphQLSchema) :
  distinctRoots schema = true ->
  documents schema
  = map (operationDocument (lit "query")) (rootFields (getQueryType schema))
    ++ map (operationDocument (lit "mutation"))
         (rootFields (getMutationType schema))
    ++ map (operationDocument (lit "subscription"))
         (rootFields (getSubscriptionType schema))
    ++ map typeDocument (documentedTypes schema)
  /\ List.length (documents schema)
     = (fieldCount (getQueryType schema)
        + fieldCount (getMutationType schema)
        + fieldCount (getSubscriptionType schema)
        + typeCount schema)%nat
  /\ map (fun d : Document => directory (fst d)) (documents schema)
     = repeat (lit "query") (fieldCount (getQueryType schema))
       ++ repeat (lit "mutation") (fieldCount (getMutationType schema))
       ++ repeat (lit "subscription")
            (fieldCount (getSubscriptionType schema))
       ++ repeat (lit "types") (typeCount schema)
  /\ NoDup (map fst (documents schema)).
Proof.
  intros Hd.
  assert (Heq : documents schema
    = map (operationDocument (lit "query"))
        (rootFields (getQueryType schema))
      ++ map (operationDocument (lit "mutation"))
           (rootFields (getMutationType schema))
      ++ map (operationDocument (lit "subscription"))
           (rootFields (getSubscriptionType schema))
      ++ map typeDocument (documentedTypes schema)).
  { unfold documents. rewrite generateOperations_eq, !map_app.
    rewrite documents_of_types, <- !app_assoc.
    rewrite (@documents_of_kind schema (lit "query"))
      by (intros t; apply query_kind).
    rewrite (@documents_of_kind schema (lit "mutation"))
      by (intros t; now apply mutation_kind).
    rewrite (@documents_of_kind schema (lit "subscription"))
      by (intros t; now apply subscription_kind).
    reflexivity. }
  split; [exact Heq|]. rewrite Heq. split; [|split].
  - rewrite !length_app, !length_map, typeCount_eq. unfold fieldCount. lia.
  - rewrite !map_app, !map_map. cbn [operationDocument typeDocument fst].
    change (fun x : Name * GraphQLField =>
              directory (lit "query" ++ lit "/" ++ text (fst x) ++ lit ".mdx"))
      with (fun _ : Name * GraphQLField => lit "query").
    change (fun x : Name * GraphQLField =>
              directory
                (lit "mutation" ++ lit "/" ++ text (fst x) ++ lit ".mdx"))
      with (fun _ : Name * GraphQLField => lit "mutation").
    change (fun x : Name * GraphQLField =>
              directory
                (lit "subscription" ++ lit "/" ++ text (fst x) ++ lit ".mdx"))
      with (fun _ : Name * GraphQLField => lit "subscription").
    change (fun x : Name * GraphQLObjectType =>
              directory (lit "types/" ++ text (fst x) ++ lit ".mdx"))
      with (fun _ : Name * GraphQLObjectType => lit "types").
    rewrite !map_const, typeCount_eq. reflexivity.
  - rewrite !map_app, !map_map. cbn [operationDocument typeDocument fst].
    assert (Hroot : forall root,
              NoDup (map (fun e : Name * GraphQLField => text (fst e))
                       (rootFields root))).
    { intros [t|]; [apply keys_NoDup|constructor]. }
    apply (@NoDup_app_by _ _ directory (lit "query"));
      [apply Forall_map, Forall_forall; intros; reflexivity
      | rewrite !Forall_app; repeat split;
        apply Forall_map, Forall_forall; intros; discriminate
      | apply (@paths_NoDup _ (lit "query" ++ lit "/")), Hroot | ].
    apply (@NoDup_app_by _ _ directory (lit "mutation"));
      [apply Forall_map, Forall_forall; intros; reflexivity
      | rewrite !Forall_app; repeat split;
        apply Forall_map, Forall_forall; intros; discriminate
      | apply (@paths_NoDup _ (lit "mutation" ++ lit "/")), Hroot | ].
    apply (@NoDup_app_by _ _ directory (lit "subscription"));
      [apply Forall_map, Forall_forall; intros; reflexivity
      | apply Forall_map, Forall_forall; intros; discriminate
      | apply (@paths_NoDup _ (lit "subscription" ++ lit "/")), Hroot | ].
    apply (@paths_NoDup _ (lit "types/")), documentedTypes_keys_NoDup.
Qed.

Lemma documents_partition_witness :
  List.length (documents Samples.demoSchema) = (2 + 1 + 0 + 2)%nat
  /\ NoDup (map fst (documents Samples.demoSchema)).
Proof.
  destruct (@documents_partition Samples.demoSchema eq_refl)
    as [_ [Hlen [_ Hnd]]].
  split; [exact Hlen|exact Hnd].
Defined.

(** With one object as query and as mutation root the field documents
    are emitted twice, both times under [query/]. *)
Lemma shared_root_paths_collide :
  map fst (documents Samples.sharedSchema)
  = [lit "query/ping.mdx"; lit "query/ping.mdx"]
  /\ ~ NoDup (map fst (documents Samples.sharedSchema)).
Proof.
  assert (E : map fst (documents Samples.sharedSchema)
              = [lit "query/ping.mdx"; lit "query/ping.mdx"])
    by (vm_compute; reflexivity).
  split; [exact E|]. rewrite E. intros H.
  inversion H as [|x l Hnotin _]. apply Hnotin. now left.
Qed.

(** ** Sections *)

Section Sections.

(** A section heading: two number signs first, no line feed. *)
Variable heading : jsstring.
Variable rest : jsstring.
Hypothesis heading_shape : heading = 35%N :: 35%N :: rest.
Hypothesis heading_one_line : ~ In nl heading.

Lemma heading_not_in_name (n : Name) : ~ occurs heading (text n).
Proof.
  intros H. apply (@name_without n 35%N); [reflexivity|].
  apply (@occurs_chars heading (text n) 35%N H).
  rewrite heading_shape. now left.
Qed.

Lemma heading_not_in_literal (l : jsstring) :
  includes l [35%N] = false -> ~ occurs heading l.
Proof.
  intros Hl [x [y H]]. apply includes_false_iff in Hl. apply Hl.
  exists x, (35%N :: rest ++ y). rewrite H, heading_shape. reflexivity.
Qed.

Lemma heading_behind_literal (l s : jsstring) :
  includes l [35%N] = false -> occurs heading (l ++ s) -> occurs heading s.
Proof.
  intros Hl. rewrite heading_shape. apply occurs_skip.
  intros Hin. apply includes_false_iff in Hl. apply Hl.
  apply in_split in Hin as [x [y ->]]. now exists x, y.
Qed.

Lemma heading_not_in_h1 (n : Name) : ~ occurs heading (lit "# " ++ text n).
Proof.
  intros [x [y H]]. destruct x as [|c x].
  - rewrite heading_shape in H. discriminate H.
  - injection H as _ H. apply (@heading_not_in_name n).
    apply (@heading_behind_literal (lit " ")); [reflexivity|].
    now exists x, y.
Qed.

Lemma occurs_join (pieces : list jsstring) :
  occurs heading (join [nl] pieces) ->
  exists piece, In piece pieces /\ occurs heading piece.
Proof.
  induction pieces as [|x pieces IH]; intros H.
  - exfalso. destruct H as [a [b H]]. rewrite heading_shape in H.
    destruct a; discriminate H.
  - destruct pieces as [|y pieces].
    + exists x. split; [now left|exact H].
    + change (occurs heading (x ++ nl :: join [nl] (y :: pieces))) in H.
      apply occurs_sep in H as [H|H]; [| |exact heading_one_line].
      * exists x. split; [now left|exact H].
      * destruct (IH H) as [piece [Hin Hp]]. exists piece.
        split; [now right|exact Hp].
Qed.

Lemma heading_not_in_description (d : option jsstring) :
  (forall text, d = Some text -> includes text heading = false) ->
  ~ occurs heading (nullish d []).
Proof.
  intros Hd. destruct d as [text|]; simpl.
  - apply includes_false_iff. now apply Hd.
  - apply heading_not_in_literal. reflexivity.
Qed.

Lemma no_heading_in_operation (n : Name) (field : GraphQLField) :
  field_args field = [] ->
  (forall text, field_description field = Some text ->
                includes text heading = false) ->
  ~ occurs heading (operationContent (text n) field).
Proof.
  intros Hargs Hdesc H.
  rewrite operationContent_head in H.
  destruct (trimEnd_prefix (operationTail field)) as [w [Hw _]].
  apply (@occurs_app_l heading _ w) in H.
  rewrite <- app_assoc, <- Hw in H.
  unfold operationTail in H. rewrite Hargs in H.
  assert (E : operationHead (text n) field
              ++ [nl; nl; nl] ++ nullish (field_description field) []
              ++ [nl; nl] ++ [] ++ [nl] ++ lit "      "
            = join [nl]
                [lit "---"; lit "title: " ++ text n;
                 lit "description: " ++ operationDescription (text n) field;
                 lit "---"; []; lit "# " ++ text n; []; [];
                 nullish (field_description field) []; []; [];
                 lit "      "]).
  { unfold operationHead, frontMatter. cbn [join].
    rewrite <- !app_assoc. reflexivity. }
  rewrite E in H. clear E. apply occurs_join in H as [piece [Hin H]].
  cbn [In] in Hin.
  repeat (destruct Hin as [<-|Hin];
          [try (revert H; apply heading_not_in_literal; reflexivity)|]);
    try contradiction.
  - apply heading_behind_literal in H; [|reflexivity].
    revert H. apply heading_not_in_name.
  - apply heading_behind_literal in H; [|reflexivity].
    unfold operationDescription in H.
    destruct (field_description field) as [d|] eqn:Hd; cbn [nullish] in H.
    + revert H. apply includes_false_iff. now apply Hdesc.
    + apply heading_behind_literal in H; [|reflexivity].
      revert H. apply heading_not_in_name.
  - revert H. apply heading_not_in_h1.
  - revert H. now apply heading_not_in_description.
Qed.

Lemma no_heading_in_type (n : Name) (type : GraphQLObjectType) :
  entries (getFields type) = [] ->
  (forall text, type_description type = Some text ->
                includes text heading = false) ->
  ~ occurs heading (typeContent (text n) type).
Proof.
  intros Hfields Hdesc H.
  rewrite typeContent_head in H.
  destruct (trimEnd_prefix (typeTail type)) as [w [Hw _]].
  apply (@occurs_app_l heading _ w) in H.
  rewrite <- app_assoc, <- Hw in H.
  unfold typeTail in H. rewrite Hfields in H.
  assert (E : typeHead (text n)
              ++ [nl; nl] ++ lit "  " ++ nullish (type_description type) []
              ++ [nl; nl] ++ lit "  " ++ [] ++ [nl; nl] ++ lit " "
            = join [nl]
                [lit "---"; lit "title: " ++ text n;
                 lit "description: Type definition for " ++ text n;
                 lit "---"; []; lit "  # " ++ text n; [];
                 lit "  " ++ nullish (type_description type) []; [];
                 lit "  "; []; lit " "]).
  { unfold typeHead, frontMatter. cbn [join].
    rewrite <- !app_assoc. reflexivity. }
  rewrite E in H. clear E. apply occurs_join in H as [piece [Hin H]].
  cbn [In] in Hin.
  repeat (destruct Hin as [<-|Hin];
          [try (revert H; apply heading_not_in_literal; reflexivity)|]);
    try contradiction.
  - apply heading_behind_literal in H; [|reflexivity].
    revert H. apply heading_not_in_name.
  - apply heading_behind_literal in H; [|reflexivity].
    revert H. apply heading_not_in_name.
  - apply (@heading_behind_literal (lit "  ")) in H; [|reflexivity].
    revert H. apply heading_not_in_h1.
  - apply heading_behind_literal in H; [|reflexivity].
    revert H. now apply heading_not_in_description.
Qed.

End Sections.

Lemma argumentsSection_firm (field : GraphQLField) :
  field_args field <> [] -> firm (argumentsSection field).
Proof.
  intros Hne. unfold argumentsSection. apply firm_app, firm_app, join_firm.
  - intros H. apply map_eq_nil in H. contradiction.
  - apply Forall_map, Forall_forall. intros arg _.
    apply firm_app, firm_app, firm_app, toString_firm.
Qed.

Lemma fieldsSection_firm (type : GraphQLObjectType) :
  entries (getFields type) <> [] -> firm (fieldsSection type).
Proof.
  intros Hne. unfold fieldsSection. apply firm_app, firm_app, join_firm.
  - intros H. apply map_eq_nil in H. contradiction.
  - apply Forall_map, Forall_forall. intros e _.
    apply firm_app, firm_app, firm_app, toString_firm.
Qed.

(** With arguments, the document ends with the arguments section. *)
Lemma operation_ends_with_section (n : Name) (field : GraphQLField) :
  field_args field <> [] ->
  operationContent (text n) field
  = (operationHead (text n) field
     ++ [nl; nl; nl] ++ nullish (field_description field) [] ++ [nl; nl])
    ++ argumentsSection field.
Proof.
  intros Hne. rewrite operationContent_head. unfold operationTail.
  pose proof (@argumentsSection_firm field Hne) as Hfirm.
  destruct (field_args field) as [|a args]; [contradiction|].
  rewrite <- !app_assoc. do 2 f_equal.
  replace ([nl; nl; nl] ++ nullish (field_description field) []
           ++ [nl; nl] ++ argumentsSection field ++ [nl] ++ lit "      ")
    with (([nl; nl; nl] ++ nullish (field_description field) []
           ++ [nl; nl] ++ argumentsSection field) ++ [nl] ++ lit "      ")
    by (rewrite <- !app_assoc; reflexivity).
  rewrite trimEnd_firm_app by (apply firm_app, firm_app, firm_app, Hfirm).
  cbn [trimEnd app lit]. rewrite <- !app_assoc, app_nil_r. reflexivity.
Qed.

(** With fields, the document ends with the fields section. *)
Lemma type_ends_with_section (n : Name) (type : GraphQLObjectType) :
  entries (getFields type) <> [] ->
  typeContent (text n) type
  = (typeHead (text n)
     ++ [nl; nl] ++ lit "  " ++ nullish (type_description type) []
     ++ [nl; nl] ++ lit "  ")
    ++ fieldsSection type.
Proof.
  intros Hne. rewrite typeContent_head. unfold typeTail.
  pose proof (@fieldsSection_firm type Hne) as Hfirm.
  destruct (entries (getFields type)) as [|e es]; [contradiction|].
  rewrite <- !app_assoc. do 2 f_equal.
  replace ([nl; nl] ++ lit "  " ++ nullish (type_description type) []
           ++ [nl; nl] ++ lit "  " ++ fieldsSection type
           ++ [nl; nl] ++ lit " ")
    with (([nl; nl] ++ lit "  " ++ nullish (type_description type) []
           ++ [nl; nl] ++ lit "  " ++ fieldsSection type)
          ++ [nl; nl] ++ lit " ")
    by (rewrite <- !app_assoc; reflexivity).
  rewrite trimEnd_firm_app
    by (apply firm_app, firm_app, firm_app, firm_app, firm_app, Hfirm).
  cbn [trimEnd app lit]. rewrite <- !app_assoc, app_nil_r. reflexivity.
Qed.

(** C6, as the code has it.  A member without arguments (operation) or
    without fields (type), whose own description does not contain the
    text of the section heading, is rendered without any "## Arguments"
    (respectively "## Fields"); a member with arguments or fields is
    rendered with the section at the end of the document: the heading, a
    blank line, and one line [- <name>: <typeSignature>] per entry in
    declared order. *)
Theorem sections_follow_listing (m : Member) :
  (listing m = [] ->
   (forall description, memberDescription m = Some description ->
      includes description (sectionHeading m) = false) ->
   includes (render m) (sectionHeading m) = false)
  /\ (listing m <> [] ->
      exists before,
        render m
        = before ++ sectionHeading m ++ [nl; nl] ++ join [nl] (listing m)).
Proof.
  destruct m as [n field|n type]; cbn [listing render sectionHeading
    memberDescription]; split.
  - intros Hnil Hdesc. apply map_eq_nil in Hnil.
    apply includes_false_iff.
    apply (@no_heading_in_operation (lit "## Arguments") (lit " Arguments"));
      auto.
    cbv. intuition discriminate.
  - intros Hne. eexists. apply operation_ends_with_section.
    intros H. apply Hne. now rewrite H.
  - intros Hnil Hdesc. apply map_eq_nil in Hnil.
    apply includes_false_iff.
    apply (@no_heading_in_type (lit "## Fields") (lit " Fields")); auto.
    cbv. intuition discriminate.
  - intros Hne. eexists. apply type_ends_with_section.
    intros H. apply Hne. now rewrite H.
Qed.

Lemma sections_follow_listing_witness :
  includes
    (render (OperationMember (Samples.name "ping" eq_refl) Samples.ping))
    (lit "## Arguments") = false
  /\ (exists before,
        render (OperationMember (Samples.name "addStory" eq_refl)
                  Samples.addStory)
        = before ++ lit "## Arguments" ++ [nl; nl]
          ++ lit "- title: String!" ++ [nl] ++ lit "- tags: [String]")
  /\ includes
       (render (TypeMember (Samples.name "Marker" eq_refl) Samples.Marker))
       (lit "## Fields") = false
  /\ (exists before,
        render (TypeMember (Samples.name "Story" eq_refl) Samples.Story)
        = before ++ lit "## Fields" ++ [nl; nl]
          ++ lit "- id: ID!" ++ [nl] ++ lit "- title: String").
Proof.
  split; [|split; [|split]].
  - apply (sections_follow_listing
             (OperationMember (Samples.name "ping" eq_refl) Samples.ping)).
    + reflexivity.
    + intros description H. injection H as <-. reflexivity.
  - apply (sections_follow_listing
             (OperationMember (Samples.name "addStory" eq_refl)
                Samples.addStory)).
    discriminate.
  - apply (sections_follow_listing
             (TypeMember (Samples.name "Marker" eq_refl) Samples.Marker)).
    + reflexivity.
    + intros description H. discriminate H.
  - apply (sections_follow_listing
             (TypeMember (Samples.name "Story" eq_refl) Samples.Story)).
    discriminate.
Defined.

(** A field without arguments whose description is the text
    "## Arguments" is rendered with an "## Arguments" line. *)
Lemma description_brings_section :
  listing (OperationMember (Samples.name "shout" eq_refl) Samples.shout) = []
  /\ includes
       (render (OperationMember (Samples.name "shout" eq_refl) Samples.shout))
       (lit "## Arguments") = true
  /\ In (lit "## Arguments")
       (lines
          (render
             (OperationMember (Samples.name "shout" eq_refl) Samples.shout))).
Proof.
  split; [reflexivity|]. split; [vm_compute; reflexivity|].
  vm_compute. tauto.
Qed.

(** ** The run of generateAll *)

Section RunProperties.

Variable World : Type.
Variable Error : Type.
Variable loadSchema_ : jsstring -> World -> World * (Error + GraphQLSchema).
Variable mkdir_ : jsstring -> World -> World * (Error + unit).
Variable writeFile_ : jsstring -> jsstring -> World -> World * (Error + unit).
Variable path_join : jsstring -> jsstring -> jsstring.
Variable dirname : jsstring -> jsstring.

(** A loop of [write]s calls the file system only, writes a prefix of
    its documents in order, and all of them when it fulfils. *)
Lemma forOf_write (A : Type) (path content : A -> jsstring) (l : list A)
    (w : World) :
  let outcome :=
    forOf l (fun x => write mkdir_ writeFile_ dirname (path x) (content x)) w
  in
  Forall (fun e => isFsEvent e = true) (traceOf outcome)
  /\ (exists rest,
        map (fun x => (path x, content x)) l
        = writeCalls (traceOf outcome) ++ rest)
  /\ (forall u, resultOf outcome = inr u ->
        writeCalls (traceOf outcome) = map (fun x => (path x, content x)) l).
Proof.
  revert w. induction l as [|x l IH]; intros w; cbn [forOf].
  - cbn. split; [constructor|]. split; [now exists []|reflexivity].
  - unfold await at 1. unfold write, await, mkdir, writeFile, called.
    destruct (mkdir_ (dirname (path x)) w) as [w1 [e|[]]].
    + cbn. split; [repeat constructor|]. split; [eexists; reflexivity|].
      intros u H. discriminate H.
    + destruct (writeFile_ (path x) (content x) w1) as [w2 [e|[]]].
      * cbn. split; [repeat constructor|].
        split; [exists (map (fun x => (path x, content x)) l); reflexivity|].
        intros u H. discriminate H.
      * specialize (IH w2). cbv zeta in IH.
        fold (write mkdir_ writeFile_ dirname) in *.
        destruct (forOf l _ w2) as [[t w3] r]. cbn in *.
        destruct IH as [Hfs [[rest Hrest] Hall]].
        split; [repeat constructor; exact Hfs|]. split.
        -- exists rest. now rewrite Hrest.
        -- intros u H. now rewrite (Hall u H).
Qed.

Lemma writeCalls_app (t1 t2 : list event) :
  writeCalls (t1 ++ t2) = writeCalls t1 ++ writeCalls t2.
Proof.
  induction t1 as [|e t1 IH]; [reflexivity|].
  destruct e; simpl; now rewrite IH.
Qed.

(** A rejected load ends the run at once. *)
Lemma generateAll_rejected (input output : jsstring) (w : World)
    (err : Error) :
  snd (loadSchema_ input w) = inl err ->
  generateAll loadSchema_ mkdir_ writeFile_ path_join dirname input output w
  = ([EvLoadSchema input], fst (loadSchema_ input w), inl err).
Proof.
  unfold generateAll, await at 1, loadSchema, called.
  destruct (loadSchema_ input w) as [w1 [e|schema]]; simpl; intros H.
  - now injection H as ->.
  - discriminate H.
Qed.

(** After a load, the two arrays are bound and only then the loops run. *)
Lemma generateAll_loaded (input output : jsstring) (w : World)
    (schema : GraphQLSchema) :
  snd (loadSchema_ input w) = inr schema ->
  let outcome :=
    generateAll loadSchema_ mkdir_ writeFile_ path_join dirname input output w
  in
  exists effects,
    traceOf outcome
    = EvLoadSchema input :: EvOperations (generateOperations schema)
      :: EvTypes (generateTypes schema) :: effects
    /\ Forall (fun e => isFsEvent e = true) effects
    /\ (exists rest,
          map (fun d : Document => (path_join output (fst d), snd d))
            (documents schema)
          = writeCalls effects ++ rest)
    /\ (forall u, resultOf outcome = inr u ->
          writeCalls effects
          = map (fun d : Document => (path_join output (fst d), snd d))
              (documents schema)).
Proof.
  intros Hload. cbv zeta.
  assert (Hdocs :
    map (fun d : Document => (path_join output (fst d), snd d))
      (documents schema)
    = map (fun operation =>
             (path_join output (operationPath operation),
              op_content operation)) (generateOperations schema)
      ++ map (fun type => (path_join output (typePath type), ty_content type))
           (generateTypes schema)).
  { unfold documents. rewrite map_app, !map_map. reflexivity. }
  rewrite Hdocs. clear Hdocs.
  unfold generateAll, await, loadSchema, called, bound.
  destruct (loadSchema_ input w) as [w1 [e|schema']]; simpl in Hload;
    [discriminate Hload|]. injection Hload as ->.
  pose proof (forOf_write
                (fun operation => path_join output (operationPath operation))
                op_content (generateOperations schema) w1) as H1.
  cbv zeta in H1. unfold write, await, mkdir, writeFile, called in H1.
  destruct (forOf (generateOperations schema) _ w1) as [[t1 w2] r1].
  cbn [traceOf resultOf fst snd] in H1.
  destruct H1 as [Hfs1 [[rest1 Hrest1] Hall1]].
  destruct r1 as [e|[]].
  - exists t1. cbn [traceOf resultOf fst snd app]. repeat split.
    + exact Hfs1.
    + exists (rest1
              ++ map (fun type =>
                        (path_join output (typePath type), ty_content type))
                   (generateTypes schema)).
      now rewrite Hrest1, <- app_assoc.
    + intros u H. discriminate H.
  - pose proof (forOf_write
                  (fun type => path_join output (typePath type))
                  ty_content (generateTypes schema) w2) as H2.
    cbv zeta in H2. unfold write, await, mkdir, writeFile, called in H2.
    destruct (forOf (generateTypes schema) _ w2) as [[t2 w3] r2].
    cbn [traceOf resultOf fst snd] in H2.
    destruct H2 as [Hfs2 [[rest2 Hrest2] Hall2]].
    exists (t1 ++ t2). cbn [traceOf resultOf fst snd app].
    rewrite writeCalls_app, (Hall1 tt eq_refl). repeat split.
    + apply Forall_app. split; assumption.
    + exists rest2. now rewrite Hrest2, <- app_assoc.
    + intros u H. now rewrite (Hall2 u H).
Qed.

(** C8. In a run of [generateAll] every call to the file system
    ([mkdir] or [writeFile]) comes after the loader has returned a schema
    and after both arrays of documents, all operations and all types,
    have been bound; and when the loader rejects, the run rejects with
    the loader's error and calls the file system not once. *)
Theorem collected_before_first_effect (input output : jsstring) (w : World) :
  let outcome :=
    generateAll loadSchema_ mkdir_ writeFile_ path_join dirname input output w
  in
  (forall before e after,
     traceOf outcome = before ++ e :: after ->
     isFsEvent e = true ->
     exists schema,
       snd (loadSchema_ input w) = inr schema
       /\ In (EvOperations (generateOperations schema)) before
       /\ In (EvTypes (generateTypes schema)) before)
  /\ (forall err,
        snd (loadSchema_ input w) = inl err ->
        resultOf outcome = inl err
        /\ Forall (fun e => isFsEvent e = false) (traceOf outcome)).
Proof.
  cbv zeta. split.
  - intros before e after Htrace Hfs.
    destruct (snd (loadSchema_ input w)) as [err|schema] eqn:Hload.
    + rewrite (@generateAll_rejected input output w err Hload) in Htrace.
      cbn [traceOf fst] in Htrace.
      destruct before as [|b [|b' before]]; try discriminate Htrace.
      injection Htrace as <- _. discriminate Hfs.
    + destruct (@generateAll_loaded input output w schema Hload)
        as [effects [Heq _]].
      rewrite Heq in Htrace. exists schema. split; [reflexivity|].
      destruct before as [|b1 [|b2 [|b3 before]]];
        try (injection Htrace as <-; discriminate Hfs);
        try (injection Htrace as _ <-; discriminate Hfs);
        try (injection Htrace as _ _ <-; discriminate Hfs).
      injection Htrace as <- <- <- _. simpl. tauto.
  - intros err Hload.
    rewrite (@generateAll_rejected input output w err Hload).
    split; [reflexivity|]. repeat constructor.
Qed.

Lemma documents_inOrder (schema : GraphQLSchema) :
  documents schema = inOrder schema.
Proof.
  unfold documents, inOrder.
  rewrite generateOperations_eq, !map_app, !documents_of_root.
  rewrite documents_of_types, <- !app_assoc. reflexivity.
Qed.

Lemma documentedTypes_in_map_order (schema : GraphQLSchema) :
  map (fun e => text (fst e)) (documentedTypes schema)
  = map (fun e => text (fst e))
      (filter (plainObject schema) (entries (getTypeMap schema))).
Proof.
  unfold documentedTypes.
  induction (entries (getTypeMap schema)) as [|[typeName type] l IH];
    [reflexivity|].
  cbn [flat_map filter]. rewrite map_app, IH.
  unfold plainObject, isRoot. cbn [fst snd].
  destruct type as [o| | | | |]; cbn [documentedType]; try reflexivity.
  destruct (startsWith typeName (lit "__")),
    (same o (getQueryType schema)),
    (same o (getMutationType schema)),
    (same o (getSubscriptionType schema)); reflexivity.
Qed.

(** C10. The documents are emitted in one fixed order, the fields of
    the query root, then of the mutation root, then of the subscription
    root, each in declared order, then the documented types in the order
    of the type map, and [generateAll] calls [writeFile] for them in that
    order: for a prefix of the list when a call to the file system
    rejects, for all of it when the run fulfils. *)
Theorem written_in_order (input output : jsstring) (w : World)
    (schema : GraphQLSchema) :
  snd (loadSchema_ input w) = inr schema ->
  let outcome :=
    generateAll loadSchema_ mkdir_ writeFile_ path_join dirname input output w
  in
  documents schema = inOrder schema
  /\ map (fun e => text (fst e)) (documentedTypes schema)
     = map (fun e => text (fst e))
         (filter (plainObject schema) (entries (getTypeMap schema)))
  /\ (exists rest,
        map (fun d : Document => (path_join output (fst d), snd d))
          (inOrder schema)
        = writeCalls (traceOf outcome) ++ rest)
  /\ (forall u, resultOf outcome = inr u ->
        writeCalls (traceOf outcome)
        = map (fun d : Document => (path_join output (fst d), snd d))
            (inOrder schema)).
Proof.
  intros Hload. cbv zeta.
  split; [apply documents_inOrder|].
  split; [apply documentedTypes_in_map_order|].
  destruct (@generateAll_loaded input output w schema Hload)
    as [effects [Heq [_ [Hprefix Hall]]]].
  rewrite Heq, <- documents_inOrder. cbn [writeCalls]. split; assumption.
Qed.

End RunProperties.

Lemma collected_before_first_effect_witness :
  (exists schema,
      snd (Samples.loadDemo (lit "schema.graphql") tt) = inr schema
      /\ In (EvOperations (generateOperations schema))
            (firstn 3 (traceOf Samples.demoRun))
      /\ In (EvTypes (generateTypes schema))
            (firstn 3 (traceOf Samples.demoRun)))
  /\ resultOf Samples.failedRun = inl tt
  /\ Forall (fun e => isFsEvent e = false) (traceOf Samples.failedRun).
Proof.
  split.
  - pose proof (@collected_before_first_effect unit unit Samples.loadDemo
                  Samples.mkdirOk Samples.writeFileOk Samples.joinSlash
                  Samples.dirnameOf (lit "schema.graphql") (lit "out") tt)
      as H.
    cbv zeta in H. destruct H as [H _].
    apply (H (firstn 3 (traceOf Samples.demoRun))
             (nth 3 (traceOf Samples.demoRun) (EvLoadSchema []))
             (skipn 4 (traceOf Samples.demoRun))).
    + vm_compute. reflexivity.
    + vm_compute. reflexivity.
  - pose proof (@collected_before_first_effect unit unit Samples.loadFails
                  Samples.mkdirOk Samples.writeFileOk Samples.joinSlash
                  Samples.dirnameOf (lit "schema.graphql") (lit "out") tt)
      as H.
    cbv zeta in H. destruct H as [_ H].
    apply (H tt). reflexivity.
Defined.

Lemma written_in_order_witness :
  map fst (writeCalls (traceOf Samples.demoRun))
  = [lit "out/query/getKey.mdx"; lit "out/query/ping.mdx";
     lit "out/mutation/addStory.mdx"; lit "out/types/Story.mdx";
     lit "out/types/Marker.mdx"].
Proof.
  pose proof (@written_in_order unit unit Samples.loadDemo
                Samples.mkdirOk Samples.writeFileOk Samples.joinSlash
                Samples.dirnameOf (lit "schema.graphql") (lit "out") tt
                Samples.demoSchema eq_refl) as H.
  cbv zeta in H. destruct H as [_ [_ [_ H]]].
  unfold Samples.demoRun. rewrite (H tt eq_refl).
  vm_compute. reflexivity.
Defined.

(** ** The description of a type *)

Lemma type_starts_with_front_matter (n : Name) (type : GraphQLObjectType) :
  typeContent (text n) type
  = frontMatter (text n) (lit "Type definition for " ++ text n)
    ++ [nl] ++ lit "  # " ++ text n ++ trimEnd (typeTail type).
Proof.
  rewrite typeContent_head. unfold typeHead.
  rewrite <- !app_assoc. reflexivity.
Qed.

(** C5. What the code does with the description of a type.  Every
    type document starts with the front-matter
    [description: Type definition for <name>], whether the type has a
    description or not.  The type [Story] has the description
    "A story": its document carries the description in the body, the
    front-matter says [description: Type definition for Story], and the
    text [description: A story] occurs nowhere. *)
Theorem type_front_matter_ignores_description :
  (forall (n : Name) (type : GraphQLObjectType),
     exists rest,
       typeContent (text n) type
       = frontMatter (text n) (lit "Type definition for " ++ text n) ++ rest)
  /\ type_description Samples.Story = Some (lit "A story")
  /\ typeContent (lit "Story") Samples.Story
     = frontMatter (lit "Story") (lit "Type definition for Story")
       ++ [nl] ++ lit "  # Story" ++ [nl; nl]
       ++ lit "  A story" ++ [nl; nl]
       ++ lit "  ## Fields" ++ [nl; nl]
       ++ lit "- id: ID!" ++ [nl] ++ lit "- title: String"
  /\ includes (typeContent (lit "Story") Samples.Story)
       (lit "description: A story") = false.
Proof.
  split.
  - intros n type. eexists. apply type_starts_with_front_matter.
  - split; [reflexivity|]. split; vm_compute; reflexivity.
Qed.

(** The end-to-end example of the design: one query field
    [getKey(id: ID): String] without description. *)
Example getKey_document :
  operationContent (lit "getKey") Samples.getKey
  = lit "---" ++ [nl]
    ++ lit "title: getKey" ++ [nl]
    ++ lit "description: Description for getKey" ++ [nl]
    ++ lit "---" ++ [nl; nl]
    ++ lit "# getKey" ++ [nl; nl; nl; nl; nl]
    ++ lit "## Arguments" ++ [nl; nl]
    ++ lit "- id: ID".
Proof. vm_compute. reflexivity. Qed.

(** ** The title formatter *)

Import Title.

Lemma segments_whole (prev : option N) (s : jsstring) :
  forallb (fun c => negb (isUpper c) && negb (c =? hyphen)%N) s = true ->
  segments prev s = [s].
Proof.
  revert prev. induction s as [|c s IH]; intros prev H; [reflexivity|].
  cbn [forallb] in H. apply andb_true_iff in H as [Hc Hs].
  apply andb_true_iff in Hc as [Hup Hhy].
  apply negb_true_iff in Hup, Hhy.
  cbn [segments]. rewrite Hhy.
  assert (Hb : boundaryBefore prev c = false)
    by (destruct prev; simpl; [now rewrite Hup|reflexivity]).
  rewrite Hb, (IH (Some c) Hs). reflexivity.
Qed.

Lemma segments_nonempty (prev : option N) (s : jsstring) :
  segments prev s <> [].
Proof.
  destruct s as [|c s]; cbn [segments]; [discriminate|].
  destruct (c =? hyphen)%N; [discriminate|].
  destruct (boundaryBefore prev c); [discriminate|].
  destruct (segments (Some c) s); discriminate.
Qed.

Lemma join_cons_head (sep : jsstring) (c : N) (seg : jsstring)
    (l : list jsstring) :
  join sep ((c :: seg) :: l) = c :: join sep (seg :: l).
Proof. destruct l; reflexivity. Qed.

(** The title of the segments is the title written from left to right. *)
Lemma segments_titleFrom (capital : bool) (prev : option N) (s : jsstring) :
  join (lit " ")
    (match segments prev s with
     | seg :: rest =>
         (if capital then capitalize seg else seg) :: map capitalize rest
     | [] => []
     end)
  = titleFrom capital prev s.
Proof.
  revert capital prev. induction s as [|c s IH]; intros capital prev.
  - destruct capital; reflexivity.
  - cbn [segments titleFrom]. destruct (c =? hyphen)%N.
    + rewrite <- (IH true None).
      pose proof (segments_nonempty None s) as Hne.
      destruct (segments None s) as [|seg rest]; [contradiction|].
      destruct capital; reflexivity.
    + rewrite <- (IH false (Some c)).
      pose proof (segments_nonempty (Some c) s) as Hne.
      destruct (segments (Some c) s) as [|seg rest]; [contradiction|].
      destruct (boundaryBefore prev c); cbn [consHead map capitalize].
      * destruct capital; cbn [capitalize];
          change (join (lit " ") ([] :: (toUpper c :: seg)
                                  :: map capitalize rest))
            with (32%N :: join (lit " ") ((toUpper c :: seg)
                                         :: map capitalize rest));
          now rewrite join_cons_head.
      * destruct capital; cbn [capitalize]; now rewrite join_cons_head.
Qed.

Lemma idToTitle_titleFrom (id : jsstring) :
  idToTitle id = titleFrom true None id.
Proof.
  rewrite <- segments_titleFrom. unfold idToTitle.
  pose proof (segments_nonempty None id) as Hne.
  destruct (segments None id); [contradiction|reflexivity].
Qed.

Lemma digit_is_plain (d : N) :
  isDigit d = true ->
  (d =? hyphen)%N = false /\ isUpper d = false /\ toUpper d = d.
Proof.
  unfold isDigit, isUpper, toUpper, isLower, hyphen. intros H.
  apply andb_true_iff in H as [H1 H2]. apply N.leb_le in H1, H2.
  rewrite (proj2 (N.eqb_neq d 45)) by lia.
  rewrite (proj2 (N.leb_gt 65 d)) by lia.
  rewrite (proj2 (N.leb_gt 97 d)) by lia.
  repeat split.
Qed.

(** Before a digit nothing is inserted, wherever it stands. *)
Lemma titleFrom_digit (d : N) (a b : jsstring) (capital : bool)
    (prev : option N) :
  isDigit d = true ->
  exists tail,
    titleFrom capital prev (a ++ d :: b)
    = titleFrom capital prev a ++ d :: tail.
Proof.
  intros Hd. destruct (digit_is_plain d Hd) as [Hhy [Hup Hto]].
  revert capital prev. induction a as [|c a IH]; intros capital prev.
  - cbn [app titleFrom]. rewrite Hhy.
    assert (Hb : boundaryBefore prev d = false)
      by (destruct prev; simpl; [now rewrite Hup|reflexivity]).
    rewrite Hb, Hto. eexists. destruct capital; reflexivity.
  - cbn [app titleFrom]. destruct (c =? hyphen)%N.
    + destruct (IH true None) as [tail ->]. now exists tail.
    + destruct (IH false (Some c)) as [tail ->].
      destruct (boundaryBefore prev c); now exists tail.
Qed.

(** The last code unit of an identifier, no hyphen, ends its title, as
    it is or as its capital. *)
Lemma titleFrom_last (l : N) (a : jsstring) (capital : bool)
    (prev : option N) :
  (l =? hyphen)%N = false ->
  exists x l',
    titleFrom capital prev (a ++ [l]) = x ++ [l']
    /\ (l' = l \/ l' = toUpper l).
Proof.
  intros Hl. revert capital prev.
  induction a as [|c a IH]; intros capital prev.
  - cbn [app titleFrom]. rewrite Hl. destruct (boundaryBefore prev l).
    + exists [32%N], (toUpper l). split; [reflexivity|now right].
    + exists [], (if capital then toUpper l else l).
      split; [reflexivity|]. destruct capital; [now right|now left].
  - cbn [app titleFrom]. destruct (c =? hyphen)%N.
    + destruct (IH true None) as [x [l' [-> H]]].
      now exists (32%N :: x), l'.
    + destruct (IH false (Some c)) as [x [l' [-> H]]].
      destruct (boundaryBefore prev c).
      * now exists (32%N :: toUpper c :: x), l'.
      * now exists ((if capital then toUpper c else c) :: x), l'.
Qed.

Lemma letter_is_no_hyphen (l : N) :
  isLower l || isUpper l = true -> (l =? hyphen)%N = false.
Proof.
  unfold isLower, isUpper, hyphen. intros H. apply N.eqb_neq. intros ->.
  discriminate H.
Qed.

(** C9, as the test-suite has it.  The formatter inserts no boundary
    before a digit: for every identifier and every digit in it, the
    title is the title of what stands before the digit, then the digit
    itself; when a letter stands before the digit, the title holds that
    letter (as it is or as its capital) and the digit side by side.  So
    "requestId30" gives "Request Id30", while "getKey" gives "Get Key"
    and "requestId-30" gives "Request Id 30", the three values of the
    test 'Operation ID to Title'; and an identifier without uppercase
    letter and without hyphen is only capitalised, whatever digits it
    holds. *)
Theorem title_keeps_digits_attached :
  test_Operation_ID_to_Title idToTitle = true
  /\ idToTitle (lit "getKey") = lit "Get Key"
  /\ idToTitle (lit "requestId30") = lit "Request Id30"
  /\ idToTitle (lit "requestId-30") = lit "Request Id 30"
  /\ (forall id,
        forallb (fun c => negb (isUpper c) && negb (c =? hyphen)%N) id = true ->
        idToTitle id = capitalize id)
  /\ (forall before d after,
        isDigit d = true ->
        exists tail,
          idToTitle (before ++ d :: after) = idToTitle before ++ d :: tail)
  /\ (forall before l d after,
        isLower l || isUpper l = true ->
        isDigit d = true ->
        exists x l' tail,
          idToTitle (before ++ l :: d :: after) = x ++ l' :: d :: tail
          /\ idToTitle (before ++ [l]) = x ++ [l']
          /\ (l' = l \/ l' = toUpper l)).
Proof.
  split; [reflexivity|]. split; [reflexivity|]. split; [reflexivity|].
  split; [reflexivity|]. split; [|split].
  - intros id H. unfold idToTitle. rewrite (segments_whole None id H).
    reflexivity.
  - intros before d after Hd. rewrite !idToTitle_titleFrom.
    now apply titleFrom_digit.
  - intros before l d after Hl Hd.
    destruct (@titleFrom_last l before true None (letter_is_no_hyphen l Hl))
      as [x [l' [Hlast Hcap]]].
    destruct (@titleFrom_digit d (before ++ [l]) after true None Hd)
      as [tail Hdigit].
    exists x, l', tail. rewrite !idToTitle_titleFrom.
    rewrite <- app_assoc in Hdigit. cbn [app] in Hdigit.
    rewrite Hdigit, Hlast, <- app_assoc. repeat split; assumption.
Qed.

Lemma title_keeps_digits_attached_witness :
  idToTitle (lit "request30") = lit "Request30"
  /\ (exists tail,
        idToTitle (lit "requestID" ++ 51%N :: lit "0")
        = idToTitle (lit "requestID") ++ 51%N :: tail)
  /\ (exists x l' tail,
        idToTitle (lit "requestI" ++ 68%N :: 51%N :: lit "0")
        = x ++ l' :: 51%N :: tail
        /\ idToTitle (lit "requestI" ++ [68%N]) = x ++ [l']
        /\ (l' = 68%N \/ l' = toUpper 68%N)).
Proof.
  destruct title_keeps_digits_attached as [_ [_ [_ [_ [H [Hd Hl]]]]]].
  split; [|split].
  - rewrite (H (lit "request30") eq_refl). reflexivity.
  - apply (Hd (lit "requestID") 51%N (lit "0")). reflexivity.
  - apply (Hl (lit "requestI") 68%N 51%N (lit "0")); reflexivity.
Defined.

(** No boundary before the digits of "requestId30". *)
Lemma requestId30_is_not_split :
  idToTitle (lit "requestId30") <> lit "Request Id 30".
Proof. intros H. discriminate H. Qed.

(** * Further properties of the generator *)

(** ** Trimmed content *)

Lemma trimEnd_idem (s : jsstring) : trimEnd (trimEnd s) = trimEnd s.
Proof.
  induction s as [|c s IH]; [reflexivity|]. cbn [trimEnd].
  destruct (trimEnd s) as [|x t] eqn:E.
  - destruct (isWhiteSpace c) eqn:Hc; [reflexivity|].
    cbn [trimEnd]. now rewrite Hc.
  - change (trimEnd (c :: x :: t)) with
      (match trimEnd (x :: t) with
       | [] => if isWhiteSpace c then [] else [c]
       | a :: l => c :: a :: l
       end).
    rewrite IH. reflexivity.
Qed.

Lemma trimmed_behind_head (head tail : jsstring) :
  firm head -> startsWith head (lit "---") = true ->
  trim (head ++ trimEnd tail) = head ++ trimEnd tail
  /\ startsWith (head ++ trimEnd tail) (lit "---") = true.
Proof.
  intros Hfirm Hstart. apply startsWith_iff in Hstart as [y ->].
  split; [|apply startsWith_iff; exists (y ++ trimEnd tail);
           now rewrite <- app_assoc].
  unfold trim. cbn [lit list_ascii_of_string map app trimStart].
  change (isWhiteSpace (N_of_ascii "-")) with false. cbv iota.
  change (N_of_ascii "-" :: N_of_ascii "-" :: N_of_ascii "-"
          :: y ++ trimEnd tail)
    with ((lit "---" ++ y) ++ trimEnd tail).
  rewrite (@trimEnd_firm_app (lit "---" ++ y) (trimEnd tail) Hfirm).
  now rewrite trimEnd_idem.
Qed.

(** X1. Rendered content is trimmed: the content of every document
    starts with the [---] of its front-matter and [trim] leaves it as it
    is, so it neither starts nor ends with white space. *)
Theorem contents_are_trimmed (schema : GraphQLSchema) :
  Forall (fun operation =>
            trim (op_content operation) = op_content operation
            /\ startsWith (op_content operation) (lit "---") = true)
         (generateOperations schema)
  /\ Forall (fun type =>
               trim (ty_content type) = ty_content type
               /\ startsWith (ty_content type) (lit "---") = true)
            (generateTypes schema).
Proof.
  split; apply Forall_forall.
  - intros operation H.
    apply in_generateOperations in H as [t [[n field] [_ [_ ->]]]].
    cbn [operationOf op_content fst snd].
    rewrite operationContent_head.
    apply trimmed_behind_head; [apply operationHead_firm|reflexivity].
  - intros type H. apply in_generateTypes in H as [[n o] [_ ->]].
    cbn [typeOf ty_content fst snd].
    rewrite typeContent_head.
    apply trimmed_behind_head; [apply typeHead_firm|reflexivity].
Qed.

(** ** Documents without section *)

Lemma trimEnd_white_tail (a w : jsstring) :
  trimEnd w = [] -> trimEnd (a ++ w) = trimEnd a.
Proof. intros H. now rewrite trimEnd_app, H. Qed.

(** X2. An operation without arguments is rendered as front-matter and
    heading, followed, only when its description holds a code unit that
    is not white space, by two blank lines and the description with its
    trailing white space stripped; without description the document ends
    with the heading. *)
Theorem operation_without_arguments (n : Name) (field : GraphQLField) :
  field_args field = [] ->
  operationContent (text n) field
  = frontMatter (text n)
      (match field_description field with
       | Some description => description
       | None => lit "Description for " ++ text n
       end)
    ++ [nl] ++ lit "# " ++ text n
    ++ match trimEnd (nullish (field_description field) []) with
       | [] => []
       | c :: body => [nl; nl; nl] ++ c :: body
       end.
Proof.
  intros Hargs. rewrite operation_starts_with_front_matter.
  do 4 f_equal. unfold operationTail. rewrite Hargs.
  replace ([nl; nl; nl] ++ nullish (field_description field) []
           ++ [nl; nl] ++ [] ++ [nl] ++ lit "      ")
    with (([nl; nl; nl] ++ nullish (field_description field) [])
          ++ [nl; nl] ++ [] ++ [nl] ++ lit "      ")
    by (rewrite <- !app_assoc; reflexivity).
  rewrite trimEnd_white_tail by reflexivity.
  rewrite trimEnd_app.
  destruct (trimEnd (nullish (field_description field) [])); reflexivity.
Qed.

Lemma operation_without_arguments_witness :
  operationContent (lit "bare") Samples.bare
  = frontMatter (lit "bare") (lit "Description for bare")
    ++ [nl] ++ lit "# bare".
Proof.
  exact (@operation_without_arguments (Samples.name "bare" eq_refl)
           Samples.bare eq_refl).
Defined.

(** X3. A type without fields is rendered as front-matter and heading
    (indented by two spaces), followed, only when its description holds
    a code unit that is not white space, by a blank line and the
    description, indented by two spaces and with its trailing white
    space stripped. *)
Theorem type_without_fields (n : Name) (type : GraphQLObjectType) :
  entries (getFields type) = [] ->
  typeContent (text n) type
  = frontMatter (text n) (lit "Type definition for " ++ text n)
    ++ [nl] ++ lit "  # " ++ text n
    ++ match trimEnd (nullish (type_description type) []) with
       | [] => []
       | c :: body => [nl; nl] ++ lit "  " ++ c :: body
       end.
Proof.
  intros Hfields. rewrite type_starts_with_front_matter.
  do 4 f_equal. unfold typeTail. rewrite Hfields.
  replace ([nl; nl] ++ lit "  " ++ nullish (type_description type) []
           ++ [nl; nl] ++ lit "  " ++ [] ++ [nl; nl] ++ lit " ")
    with (([nl; nl] ++ lit "  ")
          ++ nullish (type_description type) []
          ++ [nl; nl] ++ lit "  " ++ [] ++ [nl; nl] ++ lit " ")
    by (rewrite <- !app_assoc; reflexivity).
  rewrite (trimEnd_app ([nl; nl] ++ lit "  ")).
  rewrite trimEnd_white_tail by reflexivity.
  destruct (trimEnd (nullish (type_description type) [])); reflexivity.
Qed.

Lemma type_without_fields_witness :
  typeContent (lit "Marker") Samples.Marker
  = frontMatter (lit "Marker") (lit "Type definition for Marker")
    ++ [nl] ++ lit "  # Marker".
Proof.
  exact (@type_without_fields (Samples.name "Marker" eq_refl)
           Samples.Marker eq_refl).
Defined.

(** ** Lines of a document *)

Lemma literal_name_one_line (l : jsstring) (n : Name) :
  ~ In nl l -> ~ In nl (l ++ text n).
Proof.
  intros Hl H. apply in_app_or in H as [H|H]; [now apply Hl|].
  revert H. now apply name_without.
Qed.

(** X4. The front-matter of an operation document takes the first
    lines of the document: [---], the title line, then the description
    line, which spreads over as many lines as the description has
    itself, and after it the closing [---]. *)
Theorem operation_front_matter_lines (n : Name) (field : GraphQLField) :
  exists body,
    lines (operationContent (text n) field)
    = lit "---" :: (lit "title: " ++ text n)
      :: lines (lit "description: "
                ++ match field_description field with
                   | Some description => description
                   | None => lit "Description for " ++ text n
                   end)
      ++ lit "---" :: body.
Proof.
  rewrite operation_starts_with_front_matter.
  set (D := match field_description field with
            | Some description => description
            | None => lit "Description for " ++ text n
            end).
  set (rest := [nl] ++ lit "# " ++ text n ++ trimEnd (operationTail field)).
  exists (lines rest).
  replace (frontMatter (text n) D ++ rest)
    with (lit "---" ++ nl :: (lit "title: " ++ text n)
          ++ nl :: (lit "description: " ++ D)
          ++ nl :: lit "---" ++ nl :: rest)
    by (unfold frontMatter; rewrite <- !app_assoc; reflexivity).
  rewrite !lines_app_nl.
  rewrite (@lines_single (lit "title: " ++ text n))
    by (apply literal_name_one_line; cbv; intuition discriminate).
  reflexivity.
Qed.

(** X5. The front-matter of a type document is always the first four
    lines: [---], the title line, the line
    [description: Type definition for <name>] and [---]. *)
Theorem type_front_matter_lines (n : Name) (type : GraphQLObjectType) :
  exists body,
    lines (typeContent (text n) type)
    = lit "---" :: (lit "title: " ++ text n)
      :: (lit "description: Type definition for " ++ text n)
      :: lit "---" :: body.
Proof.
  rewrite type_starts_with_front_matter.
  set (rest := [nl] ++ lit "  # " ++ text n ++ trimEnd (typeTail type)).
  exists (lines rest).
  replace (frontMatter (text n) (lit "Type definition for " ++ text n)
           ++ rest)
    with (lit "---" ++ nl :: (lit "title: " ++ text n)
          ++ nl :: (lit "description: Type definition for " ++ text n)
          ++ nl :: lit "---" ++ nl :: rest)
    by (unfold frontMatter; rewrite <- !app_assoc; reflexivity).
  rewrite !lines_app_nl.
  rewrite (@lines_single (lit "title: " ++ text n))
    by (apply literal_name_one_line; cbv; intuition discriminate).
  rewrite (@lines_single (lit "description: Type definition for " ++ text n))
    by (apply literal_name_one_line; cbv; intuition discriminate).
  reflexivity.
Qed.

Lemma toString_one_line (t : GraphQLType) : ~ In nl (toString t).
Proof.
  induction t as [n|t IH|t IH]; cbn [toString].
  - now apply name_without.
  - intros H. apply in_app_or in H as [H|H].
    + destruct H as [H|[]]. discriminate H.
    + apply in_app_or in H as [H|H]; [now apply IH|].
      destruct H as [H|[]]. discriminate H.
  - intros H. apply in_app_or in H as [H|H]; [now apply IH|].
    destruct H as [H|[]]. discriminate H.
Qed.

Lemma entry_one_line (n : Name) (t : GraphQLType) :
  ~ In nl (lit "- " ++ text n ++ lit ": " ++ toString t).
Proof.
  intros H. apply in_app_or in H as [H|H].
  - cbv in H. intuition discriminate.
  - apply in_app_or in H as [H|H]; [revert H; now apply name_without|].
    apply in_app_or in H as [H|H]; [|revert H; apply toString_one_line].
    cbv in H. intuition discriminate.
Qed.

Lemma lines_join (l : list jsstring) :
  l <> [] -> Forall (fun x => ~ In nl x) l -> lines (join [nl] l) = l.
Proof.
  induction l as [|x l IH]; intros Hne Hall; [contradiction|].
  inversion Hall as [|? ? Hx Hl]; subst.
  destruct l as [|y l]; [now apply lines_single|].
  change (join [nl] (x :: y :: l)) with (x ++ nl :: join [nl] (y :: l)).
  rewrite lines_app_nl, (lines_single x Hx), IH by (discriminate || assumption).
  reflexivity.
Qed.

(** X6. The section of a member with arguments or fields makes the
    last lines of the document: the heading (in a type document behind
    two spaces), an empty line, and one line per entry in declared
    order. *)
Theorem section_lines (m : Member) :
  listing m <> [] ->
  exists before,
    lines (render m)
    = before ++ (sectionIndent m ++ sectionHeading m) :: [] :: listing m.
Proof.
  destruct m as [n field|n type];
    cbn [listing render sectionIndent sectionHeading]; intros Hne.
  - rewrite operation_ends_with_section
      by (intros H; apply Hne; now rewrite H).
    unfold argumentsSection.
    set (L := map _ (field_args field)) in *.
    exists (lines (operationHead (text n) field ++ [nl; nl; nl]
                   ++ nullish (field_description field) []) ++ [[]]).
    replace ((operationHead (text n) field ++ [nl; nl; nl]
              ++ nullish (field_description field) [] ++ [nl; nl])
             ++ lit "## Arguments" ++ [nl; nl] ++ join [nl] L)
      with ((operationHead (text n) field ++ [nl; nl; nl]
             ++ nullish (field_description field) [])
            ++ nl :: [] ++ nl :: lit "## Arguments"
            ++ nl :: [] ++ nl :: join [nl] L)
      by (rewrite <- !app_assoc; reflexivity).
    rewrite !lines_app_nl, lines_join;
      [rewrite <- app_assoc; reflexivity|exact Hne|].
    apply Forall_map, Forall_forall. intros arg _. apply entry_one_line.
  - rewrite type_ends_with_section
      by (intros H; apply Hne; now rewrite H).
    unfold fieldsSection.
    set (L := map _ (entries (getFields type))) in *.
    exists (lines (typeHead (text n) ++ [nl; nl] ++ lit "  "
                   ++ nullish (type_description type) []) ++ [[]]).
    replace ((typeHead (text n) ++ [nl; nl] ++ lit "  "
              ++ nullish (type_description type) [] ++ [nl; nl] ++ lit "  ")
             ++ lit "## Fields" ++ [nl; nl] ++ join [nl] L)
      with ((typeHead (text n) ++ [nl; nl] ++ lit "  "
             ++ nullish (type_description type) [])
            ++ nl :: [] ++ nl :: (lit "  " ++ lit "## Fields")
            ++ nl :: [] ++ nl :: join [nl] L)
      by (rewrite <- !app_assoc; reflexivity).
    rewrite !lines_app_nl, lines_join;
      [rewrite <- app_assoc; reflexivity|exact Hne|].
    apply Forall_map, Forall_forall. intros e _. apply entry_one_line.
Qed.

Lemma section_lines_witness :
  exists before,
    lines (render (OperationMember (Samples.name "addStory" eq_refl)
                     Samples.addStory))
    = before ++ [lit "## Arguments"; []; lit "- title: String!";
                 lit "- tags: [String]"].
Proof.
  apply (@section_lines (OperationMember (Samples.name "addStory" eq_refl)
                           Samples.addStory)).
  discriminate.
Defined.

(** ** Kinds and collisions *)

Lemma root_kind (schema : GraphQLSchema) (t : GraphQLObjectType) :
  In (Some t) (roots schema) ->
  In (getOperationType schema t)
     [lit "query"; lit "mutation"; lit "subscription"].
Proof.
  unfold roots, getOperationType. intros [H|[H|[H|[]]]].
  - rewrite H, same_refl. now left.
  - destruct (same t (getQueryType schema)); [now left|].
    rewrite H, same_refl. right. now left.
  - destruct (same t (getQueryType schema)); [now left|].
    destruct (same t (getMutationType schema)); [right; now left|].
    rewrite H, same_refl. right. right. now left.
Qed.

(** X7. The kind 'type' is never given to an operation: every document
    of [generateOperations] is of kind 'query', 'mutation' or
    'subscription', so no operation is written below [type/]. *)
Theorem operations_are_never_of_kind_type (schema : GraphQLSchema) :
  Forall (fun operation =>
            In (op_type operation)
               [lit "query"; lit "mutation"; lit "subscription"])
         (generateOperations schema).
Proof.
  apply Forall_forall. intros operation H.
  apply in_generateOperations in H as [t [e [Hroot [_ ->]]]].
  now apply root_kind.
Qed.

Lemma operation_path_is_no_type_path (kind a b : jsstring) :
  In kind [lit "query"; lit "mutation"; lit "subscription"] ->
  kind ++ lit "/" ++ a ++ lit ".mdx" <> lit "types/" ++ b ++ lit ".mdx".
Proof.
  intros [<-|[<-|[<-|[]]]] H; discriminate H.
Qed.

(** X8. Whatever the schema, no two type documents have the same output
    path, and no operation document has the output path of a type
    document, even when an operation and a type share a name. *)
Theorem type_paths_never_collide (schema : GraphQLSchema) :
  NoDup (map typePath (generateTypes schema))
  /\ Forall (fun operation =>
               Forall (fun type => operationPath operation <> typePath type)
                      (generateTypes schema))
            (generateOperations schema).
Proof.
  split.
  - rewrite generateTypes_eq, map_map.
    apply (@paths_NoDup _ (lit "types/")), documentedTypes_keys_NoDup.
  - apply Forall_forall. intros operation Hop.
    apply Forall_forall. intros type Hty.
    apply in_generateOperations in Hop as [t [e [Hroot [_ ->]]]].
    apply operation_path_is_no_type_path. now apply root_kind.
Qed.

Lemma directory_of_kind (kind rest : jsstring) :
  In kind [lit "query"; lit "mutation"; lit "subscription"] ->
  directory (kind ++ lit "/" ++ rest) = kind.
Proof. intros [<-|[<-|[<-|[]]]]; reflexivity. Qed.

(** Two roots of the same kind are of the same identity. *)
Lemma same_kind_same_ref (schema : GraphQLSchema)
    (t1 t2 : GraphQLObjectType) :
  In (Some t1) (roots schema) ->
  getOperationType schema t1 = getOperationType schema t2 ->
  ref t1 = ref t2.
Proof.
  intros Hroot Hkind.
  assert (Hsame : forall root, same t1 root = true -> same t2 root = true ->
                    ref t1 = ref t2).
  { intros [r|] H1 H2; [|discriminate H1]. simpl in H1, H2.
    apply N.eqb_eq in H1, H2. congruence. }
  destruct (getOperationType_cases schema t1) as [Hq1 [Hm1 [Hs1 Ht1]]].
  destruct (getOperationType_cases schema t2) as [Hq2 [Hm2 [Hs2 _]]].
  destruct (@root_kind schema t1 Hroot) as [H|[H|[H|[]]]];
    symmetry in H; pose proof H as H'; rewrite Hkind in H'.
  - apply (Hsame (getQueryType schema)); [apply Hq1, H|apply Hq2, H'].
  - destruct (proj1 Hm1 H) as [_ A]. destruct (proj1 Hm2 H') as [_ B].
    exact (Hsame (getMutationType schema) A B).
  - destruct (proj1 Hs1 H) as [_ [_ A]].
    destruct (proj1 Hs2 H') as [_ [_ B]].
    exact (Hsame (getSubscriptionType schema) A B).
Qed.

Lemma in_documents (schema : GraphQLSchema) (d : Document) :
  In d (documents schema) ->
  (exists t e,
      In (Some t) (roots schema) /\ In e (entries (getFields t))
      /\ d = operationDocument (getOperationType schema t) e)
  \/ (exists e, In e (documentedTypes schema) /\ d = typeDocument e).
Proof.
  unfold documents. rewrite in_app_iff, !in_map_iff.
  intros [[operation [<- H]]|[type [<- H]]].
  - left. apply in_generateOperations in H as [t [e [Hroot [He ->]]]].
    now exists t, e.
  - right. apply in_generateTypes in H as [e [He ->]]. now exists e.
Qed.

(** X9. Documents that share an output path are the same document:
    when identity determines the object, two documents of a run with
    equal paths have equal content, so the file written twice for a root
    that serves as two roots is written twice with the same content. *)
Theorem colliding_documents_agree (schema : GraphQLSchema)
    (d1 d2 : Document) :
  oneObjectPerRef schema ->
  In d1 (documents schema) -> In d2 (documents schema) ->
  fst d1 = fst d2 -> snd d1 = snd d2.
Proof.
  intros Hone H1 H2 Hpath.
  apply in_documents in H1 as [[t1 [e1 [Hr1 [He1 ->]]]]|[e1 [He1 ->]]];
    apply in_documents in H2 as [[t2 [e2 [Hr2 [He2 ->]]]]|[e2 [He2 ->]]];
    cbn [operationDocument typeDocument fst snd] in *.
  - assert (Hkind : getOperationType schema t1 = getOperationType schema t2).
    { rewrite <- (@directory_of_kind (getOperationType schema t1)
                    (text (fst e1) ++ lit ".mdx"))
        by now apply root_kind.
      rewrite <- (@directory_of_kind (getOperationType schema t2)
                    (text (fst e2) ++ lit ".mdx"))
        by now apply root_kind.
      now rewrite Hpath. }
    rewrite Hkind in Hpath. apply app_inv_head, app_inv_head in Hpath.
    apply app_inv_tail in Hpath.
    assert (Ht : t1 = t2)
      by (apply Hone; auto; now apply (@same_kind_same_ref schema)).
    subst t2.
    now rewrite (@entry_unique _ (getFields t1) e1 e2 He1 He2 Hpath).
  - exfalso. revert Hpath. apply operation_path_is_no_type_path.
    now apply root_kind.
  - exfalso. symmetry in Hpath. revert Hpath.
    apply operation_path_is_no_type_path. now apply root_kind.
  - apply app_inv_head, app_inv_tail in Hpath.
    now rewrite (NoDup_map_eq (fun e => text (fst e)) _ e1 e2
                   (documentedTypes_keys_NoDup schema) He1 He2 Hpath).
Qed.

Lemma colliding_documents_agree_witness :
  snd (nth 0 (documents Samples.sharedSchema) ([], []))
  = snd (nth 1 (documents Samples.sharedSchema) ([], [])).
Proof.
  apply (@colliding_documents_agree Samples.sharedSchema).
  - intros a b Ha Hb _.
    assert (H : forall t, In (Some t) (roots Samples.sharedSchema) ->
                  t = Samples.Root).
    { intros t [H|[H|[H|[]]]]; try discriminate H; now injection H. }
    now rewrite (H a Ha), (H b Hb).
  - vm_compute. tauto.
  - vm_compute. tauto.
  - reflexivity.
Defined.

(** ** The calls to the file system *)

Lemma flat_map_map (A B C : Type) (f : A -> B) (g : B -> list C)
    (l : list A) :
  flat_map g (map f l) = flat_map (fun x => g (f x)) l.
Proof. induction l as [|x l IH]; simpl; [reflexivity|now rewrite IH]. Qed.

(** In the calls that write a list of documents, every [writeFile] comes
    right after the [mkdir] of the directory of its path. *)
Lemma writeFile_after_mkdir (path_join : jsstring -> jsstring -> jsstring)
    (dirname : jsstring -> jsstring) (output : jsstring)
    (docs : list Document) (before after : list event)
    (path content : jsstring) :
  writeEvents path_join dirname output docs
  = before ++ EvWriteFile path content :: after ->
  exists before', before = before' ++ [EvMkdir (dirname path)].
Proof.
  revert before. induction docs as [|d docs IH]; intros before H.
  - destruct before; discriminate H.
  - cbn [writeEvents flat_map app] in H.
    destruct before as [|e1 [|e2 before]].
    + discriminate H.
    + injection H as <- Hpath _ _. rewrite Hpath. now exists [].
    + injection H as <- <- H. destruct (IH before H) as [b' ->].
      now exists (EvMkdir (dirname (path_join output (fst d)))
                  :: EvWriteFile (path_join output (fst d)) (snd d) :: b').
Qed.

Section RunEffects.

Variable World : Type.
Variable Error : Type.
Variable loadSchema_ : jsstring -> World -> World * (Error + GraphQLSchema).
Variable mkdir_ : jsstring -> World -> World * (Error + unit).
Variable writeFile_ : jsstring -> jsstring -> World -> World * (Error + unit).
Variable path_join : jsstring -> jsstring -> jsstring.
Variable dirname : jsstring -> jsstring.

(** A loop of [write]s makes a prefix of the calls of its documents, and
    all of them when it fulfils. *)
Lemma forOf_events (A : Type) (path content : A -> jsstring) (l : list A)
    (w : World) :
  let outcome :=
    forOf l (fun x => write mkdir_ writeFile_ dirname (path x) (content x)) w
  in
  let calls :=
    flat_map (fun x => [EvMkdir (dirname (path x));
                        EvWriteFile (path x) (content x)]) l
  in
  (exists rest, calls = traceOf outcome ++ rest)
  /\ (forall u, resultOf outcome = inr u -> traceOf outcome = calls).
Proof.
  revert w. induction l as [|x l IH]; intros w; cbn [forOf flat_map].
  - cbn. split; [now exists []|reflexivity].
  - unfold await at 1. unfold write, await, mkdir, writeFile, called.
    destruct (mkdir_ (dirname (path x)) w) as [w1 [e|[]]].
    + cbn. split; [eexists; reflexivity|]. intros u H. discriminate H.
    + destruct (writeFile_ (path x) (content x) w1) as [w2 [e|[]]].
      * cbn. split; [eexists; reflexivity|]. intros u H. discriminate H.
      * specialize (IH w2). cbv zeta in IH.
        fold (write mkdir_ writeFile_ dirname) in *.
        destruct (forOf l _ w2) as [[t w3] r]. cbn in *.
        destruct IH as [[rest Hrest] Hall]. split.
        -- exists rest. now rewrite Hrest.
        -- intros u H. now rewrite (Hall u H).
Qed.

(** After a successful load the run is the load, the two bindings and
    then calls to the file system: a prefix of the calls that write the
    documents, and all of them when it fulfils. *)
Lemma run_calls (input output : jsstring) (w : World)
    (schema : GraphQLSchema) :
  snd (loadSchema_ input w) = inr schema ->
  let outcome :=
    generateAll loadSchema_ mkdir_ writeFile_ path_join dirname input output w
  in
  exists effects rest,
    traceOf outcome
    = EvLoadSchema input :: EvOperations (generateOperations schema)
      :: EvTypes (generateTypes schema) :: effects
    /\ writeEvents path_join dirname output (documents schema)
       = effects ++ rest
    /\ (forall u, resultOf outcome = inr u -> rest = []).
Proof.
  intros Hload. cbv zeta.
  assert (Hall :
    writeEvents path_join dirname output (documents schema)
    = flat_map (fun operation =>
                  [EvMkdir (dirname (path_join output
                                       (operationPath operation)));
                   EvWriteFile (path_join output (operationPath operation))
                     (op_content operation)])
        (generateOperations schema)
      ++ flat_map (fun type =>
                     [EvMkdir (dirname (path_join output (typePath type)));
                      EvWriteFile (path_join output (typePath type))
                        (ty_content type)])
           (generateTypes schema)).
  { unfold writeEvents, documents. rewrite flat_map_app, !flat_map_map.
    reflexivity. }
  rewrite Hall. clear Hall.
  unfold generateAll, await, loadSchema, called, bound.
  destruct (loadSchema_ input w) as [w1 [e|schema']]; simpl in Hload;
    [discriminate Hload|]. injection Hload as ->.
  pose proof (forOf_events
                (fun operation => path_join output (operationPath operation))
                op_content (generateOperations schema) w1) as H1.
  cbv zeta in H1. unfold write, await, mkdir, writeFile, called in H1.
  destruct (forOf (generateOperations schema) _ w1) as [[t1 w2] r1].
  cbn [traceOf resultOf fst snd] in H1.
  destruct H1 as [[rest1 Hrest1] Hall1].
  destruct r1 as [e|[]].
  - cbn [traceOf resultOf fst snd app]. eexists t1, _.
    split; [reflexivity|]. split.
    + rewrite Hrest1, <- !app_assoc. reflexivity.
    + intros u H. discriminate H.
  - pose proof (forOf_events
                  (fun type => path_join output (typePath type))
                  ty_content (generateTypes schema) w2) as H2.
    cbv zeta in H2. unfold write, await, mkdir, writeFile, called in H2.
    destruct (forOf (generateTypes schema) _ w2) as [[t2 w3] r2].
    cbn [traceOf resultOf fst snd] in H2.
    destruct H2 as [[rest2 Hrest2] Hall2].
    cbn [traceOf resultOf fst snd app]. exists (t1 ++ t2), rest2.
    split; [reflexivity|]. split.
    + rewrite <- (Hall1 tt eq_refl), Hrest2, <- !app_assoc. reflexivity.
    + intros u H. apply (f_equal (@List.length event)) in Hrest2.
      rewrite (Hall2 u H), length_app in Hrest2.
      destruct rest2; [reflexivity|simpl in Hrest2; lia].
Qed.


(** X11. A file is never written before its directory is ensured: in
    every run, each call [writeFile path content] comes right after the
    call [mkdir (dirname path)]. *)
Theorem mkdir_precedes_writeFile (input output : jsstring) (w : World)
    (before after : list event) (path content : jsstring) :
  traceOf
    (generateAll loadSchema_ mkdir_ writeFile_ path_join dirname
       input output w)
  = before ++ EvWriteFile path content :: after ->
  exists before', before = before' ++ [EvMkdir (dirname path)].
Proof.
  intros Htrace.
  destruct (snd (loadSchema_ input w)) as [err|schema] eqn:Hload.
  - rewrite (@generateAll_rejected _ _ loadSchema_ mkdir_ writeFile_
               path_join dirname input output w err Hload) in Htrace.
    cbn [traceOf fst] in Htrace.
    destruct before as [|b [|b' before]]; discriminate Htrace.
  - destruct (@run_calls input output w schema Hload)
      as [effects [rest [Heq [Hcalls _]]]].
    rewrite Heq in Htrace.
    destruct before as [|b1 [|b2 [|b3 before]]]; try discriminate Htrace.
    injection Htrace as <- <- <- ->.
    rewrite <- app_assoc in Hcalls. cbn [app] in Hcalls.
    destruct (@writeFile_after_mkdir path_join dirname output
                (documents schema) before (after ++ rest) path content Hcalls)
      as [b' ->].
    now exists (EvLoadSchema input :: EvOperations (generateOperations schema)
                :: EvTypes (generateTypes schema) :: b').
Qed.

(** X12. Nothing to write, nothing touched: when the loaded schema
    yields no document, the run binds two empty arrays and fulfils
    without a single call to the file system, whatever the file system
    would answer. *)
Theorem nothing_to_write (input output : jsstring) (w : World)
    (schema : GraphQLSchema) :
  snd (loadSchema_ input w) = inr schema ->
  documents schema = [] ->
  generateAll loadSchema_ mkdir_ writeFile_ path_join dirname input output w
  = ([EvLoadSchema input; EvOperations []; EvTypes []],
     fst (loadSchema_ input w), inr tt).
Proof.
  intros Hload Hdocs. unfold documents in Hdocs.
  apply app_eq_nil in Hdocs as [Hops Htypes].
  apply map_eq_nil in Hops, Htypes.
  unfold generateAll, await, loadSchema, called, bound.
  destruct (loadSchema_ input w) as [w1 [e|schema']]; simpl in Hload;
    [discriminate Hload|]. injection Hload as ->.
  rewrite Hops, Htypes. reflexivity.
Qed.

End RunEffects.


Lemma mkdir_precedes_writeFile_witness :
  exists before',
    firstn 4 (traceOf Samples.demoRun)
    = before' ++ [EvMkdir (lit "out/query")].
Proof.
  apply (@mkdir_precedes_writeFile unit unit Samples.loadDemo
           Samples.mkdirOk Samples.writeFileOk Samples.joinSlash
           Samples.dirnameOf (lit "schema.graphql") (lit "out") tt
           (firstn 4 (traceOf Samples.demoRun))
           (skipn 5 (traceOf Samples.demoRun))
           (lit "out/query/getKey.mdx")
           (operationContent (lit "getKey") Samples.getKey)).
  vm_compute. reflexivity.
Defined.

Lemma nothing_to_write_witness :
  generateAll Samples.loadEmpty Samples.mkdirFails Samples.writeFileFails
    Samples.joinSlash Samples.dirnameOf (lit "schema.graphql") (lit "out") tt
  = ([EvLoadSchema (lit "schema.graphql"); EvOperations []; EvTypes []],
     tt, inr tt).
Proof.
  apply (@nothing_to_write unit unit Samples.loadEmpty Samples.mkdirFails
           Samples.writeFileFails Samples.joinSlash Samples.dirnameOf
           (lit "schema.graphql") (lit "out") tt Samples.emptySchema);
    reflexivity.
Defined.

(** ** The clean-up of the example script *)

Lemma endsWith_iff (s p : jsstring) :
  endsWith s p = true <-> exists x, s = x ++ p.
Proof.
  unfold endsWith. rewrite startsWith_iff. split.
  - intros [y H]. exists (rev y).
    apply (f_equal (@rev N)) in H.
    now rewrite rev_involutive, rev_app_distr, rev_involutive in H.
  - intros [x ->]. exists (rev x). apply rev_app_distr.
Qed.

Lemma startsWith_before (c : N) (p a b : jsstring) :
  ~ In c p -> startsWith (a ++ c :: b) p = startsWith a p.
Proof.
  revert a. induction p as [|x p IH]; intros a Hc; [reflexivity|].
  destruct a as [|y a]; cbn [app startsWith].
  - destruct (N.eqb_spec x c) as [->|_]; [|reflexivity].
    exfalso. apply Hc. now left.
  - rewrite IH; [reflexivity|]. intros H. apply Hc. now right.
Qed.

Lemma cleanup_of_document (dir name : jsstring) :
  Cleanup.filter (dir ++ lit "/" ++ name ++ lit ".mdx")
  = negb (endsWith name (lit "index")).
Proof.
  unfold Cleanup.filter, endsWith.
  rewrite !rev_app_distr, <- !app_assoc.
  change (rev (lit ".mdx")) with (lit "xdm.").
  change (rev (lit "/")) with [47%N].
  change (rev (lit "index.mdx")) with (lit "xdm." ++ rev (lit "index")).
  change (startsWith (lit "xdm." ++ rev name ++ [47%N] ++ rev dir)
            (lit "xdm." ++ rev (lit "index")))
    with (startsWith (rev name ++ 47%N :: rev dir) (rev (lit "index"))).
  change (startsWith (lit "xdm." ++ rev name ++ [47%N] ++ rev dir)
            (rev (lit "meta.json")))
    with false.
  rewrite startsWith_before by (cbv; intuition discriminate).
  apply andb_true_r.
Qed.

(** X14. The clean-up removes the documents of an earlier run, with one
    exception: the document of an operation or of a type, below any
    output root, is selected for removal exactly when the name of the
    member does not end in "index". *)
Theorem cleanup_removes_documents (root : jsstring)
    (operation : OperationDoc) (type : TypeDoc) :
  Cleanup.filter (root ++ operationPath operation)
  = negb (endsWith (op_name operation) (lit "index"))
  /\ Cleanup.filter (root ++ typePath type)
     = negb (endsWith (ty_name type) (lit "index")).
Proof.
  unfold operationPath, typePath. split.
  - rewrite app_assoc. apply cleanup_of_document.
  - change (lit "types/" ++ ty_name type ++ lit ".mdx")
      with (lit "types" ++ lit "/" ++ ty_name type ++ lit ".mdx").
    rewrite app_assoc. apply cleanup_of_document.
Qed.
